(** * The platform-update payment flow of [Header.tsx]

    A shallow embedding of the update-payment flow controller of
    [frontend/src/components/Header.tsx]: the React state of the component,
    the handlers [handleUpdatePlatform], [handleSubmitUpdate],
    [copyToClipboard], [pollUpdateStatus], the close button of the update
    modal, and the browser pieces they drive (timers, in-flight fetches,
    notifications).

    Scope of the model: one mounted [Header] on a live page.  Rendering,
    logout and navigation are not modelled.  Every handler runs on the
    committed state of the latest render. *)

From Corelib Require Import PrimFloat.
From Stdlib Require Import Ascii String.
From stdpp Require Import gmap strings list.

Local Open Scope string_scope.
Local Open Scope Z_scope.
Local Open Scope list_scope.
Set Warnings "-register-all".

(** ** JavaScript values

    [response.json()] yields an arbitrary JSON value and TypeScript types are
    erased at run time, so the fields that are filled from a response body
    hold JavaScript values, not strings. *)

Inductive json : Type :=
| JNull
| JBool (b : bool)
| JNum (n : float)
| JStr (s : string)
| JArr (items : list json)
| JObj (props : list (string * json)).

Inductive jsval : Type :=
| Undefined
| J (v : json).

(** [ToBoolean]: what [if (v)], [!v] and [v || w] test. *)
Definition truthy (v : jsval) : bool :=
  match v with
  | Undefined => false
  | J JNull => false
  | J (JBool b) => b
  | J (JNum n) => negb (PrimFloat.eqb n 0%float || PrimFloat.is_nan n)
  | J (JStr s) => negb (String.eqb s "")
  | J (JArr _) => true
  | J (JObj _) => true
  end.

(** [!s] on a string. *)
Definition is_empty (s : string) : bool := String.eqb s "".

(** [v === 'lit']. *)
Definition strict_eq_str (v : jsval) (lit : string) : bool :=
  match v with
  | J (JStr s) => String.eqb s lit
  | _ => false
  end.

(** The properties of a parsed object: [JSON.parse] keeps the last binding
    of a repeated key. *)
Fixpoint own_prop (k : string) (props : list (string * json)) : jsval :=
  match props with
  | [] => Undefined
  | (k', v) :: rest =>
      match own_prop k rest with
      | Undefined => if String.eqb k k' then J v else Undefined
      | found => found
      end
  end.

Inductive js_exception : Type :=
| NetworkError   (* the promise of [authenticatedFetch] rejected *)
| SyntaxError    (* [response.json()] rejected: the body is not JSON *)
| TypeError.     (* property read on [null] *)

Inductive completion (A : Type) : Type :=
| Normal (a : A)
| Thrown (e : js_exception).
Arguments Normal {A} a.
Arguments Thrown {A} e.

(** [data.k] for the keys the component reads ([error], [qrCode],
    [qrCodeBase64], [transactionId], [expiresAt], [status], [errorMessage]):
    none of them is a property of a prototype, so only an object literal can
    have them; reading a property of [null] throws. *)
Definition get_prop (data : json) (k : string) : completion jsval :=
  match data with
  | JNull => Thrown TypeError
  | JObj props => Normal (own_prop k props)
  | _ => Normal Undefined
  end.

(** [payerIdentificationNumber.replace(/\D/g, '')]: [\D] is every code unit
    outside [0-9].  Strings are byte strings here; no byte of a multi-byte
    character is an ASCII digit, so the digits that survive are the same. *)
Definition is_digit (c : ascii) : bool :=
  let n := Z.of_nat (nat_of_ascii c) in (48 <=? n) && (n <=? 57).

Fixpoint strip_non_digits (s : string) : string :=
  match s with
  | EmptyString => EmptyString
  | String c rest =>
      if is_digit c then String c (strip_non_digits rest)
      else strip_non_digits rest
  end.

Fixpoint all_digits (s : string) : bool :=
  match s with
  | EmptyString => true
  | String c rest => is_digit c && all_digits rest
  end.

(** ** Component state: the [useState] cells of [Header] (lines 26-38) *)

Record State : Type := mkState {
  isUpdating : bool;
  showUpdateModal : bool;
  updateQrCode : jsval;
  updateQrCodeBase64 : jsval;
  updateTransactionId : jsval;
  updateExpiresAt : jsval;
  copied : bool;
  payerEmail : string;
  payerFirstName : string;
  payerLastName : string;
  payerIdentificationType : string;
  payerIdentificationNumber : string
}.

Definition initial_state : State :=
  {| isUpdating := false; showUpdateModal := false;
     updateQrCode := J JNull; updateQrCodeBase64 := J JNull;
     updateTransactionId := J JNull; updateExpiresAt := J JNull;
     copied := false;
     payerEmail := ""; payerFirstName := ""; payerLastName := "";
     payerIdentificationType := "CPF"; payerIdentificationNumber := "" |}.

(** ** What the component sends out *)

Inductive severity : Type := success | error | info.

(** The first argument of [showNotification]: [t('key')] is kept as the key
    (the translation table is not part of the component), a value taken from
    a response body is kept as it is. *)
Inductive text : Type :=
| Translated (key : string)
| Supplied (v : jsval).

Record Notification : Type := mkNotification {
  message : text;
  kind : severity
}.

(** The body of the charge request (lines 115-125). *)
Record ChargeRequest : Type := mkChargeRequest {
  email : string;
  firstName : string;
  lastName : string;
  identification_type : string;
  identification_number : string
}.

Inductive Request : Type :=
| PLATFORM_UPDATE_REQUEST (payer : ChargeRequest)
| PLATFORM_UPDATE_STATUS (txId : jsval).

(** What [authenticatedFetch] and [response.json()] may come back with.
    [body = None]: reading the body as JSON rejects. *)
Record Response : Type := mkResponse {
  status : Z;
  body : option json
}.

Definition ok (r : Response) : bool := (200 <=? status r) && (status r <=? 299).

Inductive FetchOutcome : Type :=
| Rejected
| Responded (r : Response).

(** ** Timers and in-flight requests

    Closures are kept as data: a timer callback is one of the three arrow
    functions the component passes to [setInterval] / [setTimeout], and the
    code after an [await] is named by what is waiting. *)

Inductive Callback : Type :=
| PollTick (txId : jsval)          (* lines 165-198 *)
| ClearPoll (interval : nat)       (* line 201: [() => clearInterval(interval)] *)
| ResetCopied.                     (* line 161: [() => setCopied(false)] *)

Record Timer : Type := mkTimer {
  callback : Callback;
  repeating : bool;
  delay : Z;
  due : Z
}.

Inductive Awaiting : Type :=
| SubmitAwaits                     (* [handleSubmitUpdate] at line 113 *)
| PollAwaits (interval : nat).     (* a poll tick at line 167 *)

Record World : Type := mkWorld {
  ui : State;
  notices : list Notification;     (* [showNotification] calls, oldest first *)
  sent : list Request;             (* [authenticatedFetch] calls, oldest first *)
  inflight : gmap nat Awaiting;
  next_fetch : nat;
  timers : gmap nat Timer;         (* one id pool for intervals and timeouts *)
  next_timer : nat;
  now : Z;                         (* milliseconds *)
  console : list js_exception;     (* [console.error] *)
  clipboard : option jsval
}.

Definition initial_world : World :=
  {| ui := initial_state; notices := []; sent := [];
     inflight := ∅; next_fetch := 0%nat;
     timers := ∅; next_timer := 1%nat; now := 0;
     console := []; clipboard := None |}.

(** ** Handlers as programs over the world

    A handler is a state transformer that completes normally or with a
    thrown exception, so that [try] / [catch] / [finally] can be written
    where the source has them. *)

Definition M (A : Type) : Type := World → completion A * World.

Definition ret {A} (a : A) : M A := λ w, (Normal a, w).

Definition bind {A B} (m : M A) (k : A → M B) : M B :=
  λ w, match m w with
       | (Normal a, w') => k a w'
       | (Thrown e, w') => (Thrown e, w')
       end.

Definition throw {A} (e : js_exception) : M A := λ w, (Thrown e, w).

Definition try_catch {A} (m : M A) (handler : js_exception → M A) : M A :=
  λ w, match m w with
       | (Normal a, w') => (Normal a, w')
       | (Thrown e, w') => handler e w'
       end.

Definition try_finally {A} (m : M A) (final : M unit) : M A :=
  λ w, match m w with
       | (r, w') =>
           match final w' with
           | (Normal _, w'') => (r, w'')
           | (Thrown e, w'') => (Thrown e, w'')
           end
       end.

Definition lift {A} (c : completion A) : M A := λ w, (c, w).

Notation "x <- m ;; k" := (bind m (λ x, k))
  (at level 100, m at next level, right associativity).
Notation "m ;;; k" := (bind m (λ _, k))
  (at level 100, right associativity).

Definition get_ui : M State := λ w, (Normal (ui w), w).

Definition with_ui (f : State → State) (w : World) : World :=
  {| ui := f (ui w); notices := notices w; sent := sent w;
     inflight := inflight w; next_fetch := next_fetch w;
     timers := timers w; next_timer := next_timer w; now := now w;
     console := console w; clipboard := clipboard w |}.

Definition with_timers (f : gmap nat Timer → gmap nat Timer) (w : World) : World :=
  {| ui := ui w; notices := notices w; sent := sent w;
     inflight := inflight w; next_fetch := next_fetch w;
     timers := f (timers w); next_timer := next_timer w; now := now w;
     console := console w; clipboard := clipboard w |}.

(** *** The state setters returned by [useState] *)

Definition setIsUpdating (v : bool) : M unit := λ w,
  (Normal (), with_ui (λ s,
     {| isUpdating := v; showUpdateModal := showUpdateModal s;
        updateQrCode := updateQrCode s; updateQrCodeBase64 := updateQrCodeBase64 s;
        updateTransactionId := updateTransactionId s; updateExpiresAt := updateExpiresAt s;
        copied := copied s;
        payerEmail := payerEmail s; payerFirstName := payerFirstName s;
        payerLastName := payerLastName s;
        payerIdentificationType := payerIdentificationType s;
        payerIdentificationNumber := payerIdentificationNumber s |}) w).

Definition setShowUpdateModal (v : bool) : M unit := λ w,
  (Normal (), with_ui (λ s,
     {| isUpdating := isUpdating s; showUpdateModal := v;
        updateQrCode := updateQrCode s; updateQrCodeBase64 := updateQrCodeBase64 s;
        updateTransactionId := updateTransactionId s; updateExpiresAt := updateExpiresAt s;
        copied := copied s;
        payerEmail := payerEmail s; payerFirstName := payerFirstName s;
        payerLastName := payerLastName s;
        payerIdentificationType := payerIdentificationType s;
        payerIdentificationNumber := payerIdentificationNumber s |}) w).

Definition setUpdateQrCode (v : jsval) : M unit := λ w,
  (Normal (), with_ui (λ s,
     {| isUpdating := isUpdating s; showUpdateModal := showUpdateModal s;
        updateQrCode := v; updateQrCodeBase64 := updateQrCodeBase64 s;
        updateTransactionId := updateTransactionId s; updateExpiresAt := updateExpiresAt s;
        copied := copied s;
        payerEmail := payerEmail s; payerFirstName := payerFirstName s;
        payerLastName := payerLastName s;
        payerIdentificationType := payerIdentificationType s;
        payerIdentificationNumber := payerIdentificationNumber s |}) w).

Definition setUpdateQrCodeBase64 (v : jsval) : M unit := λ w,
  (Normal (), with_ui (λ s,
     {| isUpdating := isUpdating s; showUpdateModal := showUpdateModal s;
        updateQrCode := updateQrCode s; updateQrCodeBase64 := v;
        updateTransactionId := updateTransactionId s; updateExpiresAt := updateExpiresAt s;
        copied := copied s;
        payerEmail := payerEmail s; payerFirstName := payerFirstName s;
        payerLastName := payerLastName s;
        payerIdentificationType := payerIdentificationType s;
        payerIdentificationNumber := payerIdentificationNumber s |}) w).

Definition setUpdateTransactionId (v : jsval) : M unit := λ w,
  (Normal (), with_ui (λ s,
     {| isUpdating := isUpdating s; showUpdateModal := showUpdateModal s;
        updateQrCode := updateQrCode s; updateQrCodeBase64 := updateQrCodeBase64 s;
        updateTransactionId := v; updateExpiresAt := updateExpiresAt s;
        copied := copied s;
        payerEmail := payerEmail s; payerFirstName := payerFirstName s;
        payerLastName := payerLastName s;
        payerIdentificationType := payerIdentificationType s;
        payerIdentificationNumber := payerIdentificationNumber s |}) w).

Definition setUpdateExpiresAt (v : jsval) : M unit := λ w,
  (Normal (), with_ui (λ s,
     {| isUpdating := isUpdating s; showUpdateModal := showUpdateModal s;
        updateQrCode := updateQrCode s; updateQrCodeBase64 := updateQrCodeBase64 s;
        updateTransactionId := updateTransactionId s; updateExpiresAt := v;
        copied := copied s;
        payerEmail := payerEmail s; payerFirstName := payerFirstName s;
        payerLastName := payerLastName s;
        payerIdentificationType := payerIdentificationType s;
        payerIdentificationNumber := payerIdentificationNumber s |}) w).

Definition setCopied (v : bool) : M unit := λ w,
  (Normal (), with_ui (λ s,
     {| isUpdating := isUpdating s; showUpdateModal := showUpdateModal s;
        updateQrCode := updateQrCode s; updateQrCodeBase64 := updateQrCodeBase64 s;
        updateTransactionId := updateTransactionId s; updateExpiresAt := updateExpiresAt s;
        copied := v;
        payerEmail := payerEmail s; payerFirstName := payerFirstName s;
        payerLastName := payerLastName s;
        payerIdentificationType := payerIdentificationType s;
        payerIdentificationNumber := payerIdentificationNumber s |}) w).

Definition setPayerEmail (v : string) : M unit := λ w,
  (Normal (), with_ui (λ s,
     {| isUpdating := isUpdating s; showUpdateModal := showUpdateModal s;
        updateQrCode := updateQrCode s; updateQrCodeBase64 := updateQrCodeBase64 s;
        updateTransactionId := updateTransactionId s; updateExpiresAt := updateExpiresAt s;
        copied := copied s;
        payerEmail := v; payerFirstName := payerFirstName s;
        payerLastName := payerLastName s;
        payerIdentificationType := payerIdentificationType s;
        payerIdentificationNumber := payerIdentificationNumber s |}) w).

Definition setPayerFirstName (v : string) : M unit := λ w,
  (Normal (), with_ui (λ s,
     {| isUpdating := isUpdating s; showUpdateModal := showUpdateModal s;
        updateQrCode := updateQrCode s; updateQrCodeBase64 := updateQrCodeBase64 s;
        updateTransactionId := updateTransactionId s; updateExpiresAt := updateExpiresAt s;
        copied := copied s;
        payerEmail := payerEmail s; payerFirstName := v;
        payerLastName := payerLastName s;
        payerIdentificationType := payerIdentificationType s;
        payerIdentificationNumber := payerIdentificationNumber s |}) w).

Definition setPayerLastName (v : string) : M unit := λ w,
  (Normal (), with_ui (λ s,
     {| isUpdating := isUpdating s; showUpdateModal := showUpdateModal s;
        updateQrCode := updateQrCode s; updateQrCodeBase64 := updateQrCodeBase64 s;
        updateTransactionId := updateTransactionId s; updateExpiresAt := updateExpiresAt s;
        copied := copied s;
        payerEmail := payerEmail s; payerFirstName := payerFirstName s;
        payerLastName := v;
        payerIdentificationType := payerIdentificationType s;
        payerIdentificationNumber := payerIdentificationNumber s |}) w).

Definition setPayerIdentificationType (v : string) : M unit := λ w,
  (Normal (), with_ui (λ s,
     {| isUpdating := isUpdating s; showUpdateModal := showUpdateModal s;
        updateQrCode := updateQrCode s; updateQrCodeBase64 := updateQrCodeBase64 s;
        updateTransactionId := updateTransactionId s; updateExpiresAt := updateExpiresAt s;
        copied := copied s;
        payerEmail := payerEmail s; payerFirstName := payerFirstName s;
        payerLastName := payerLastName s;
        payerIdentificationType := v;
        payerIdentificationNumber := payerIdentificationNumber s |}) w).

Definition setPayerIdentificationNumber (v : string) : M unit := λ w,
  (Normal (), with_ui (λ s,
     {| isUpdating := isUpdating s; showUpdateModal := showUpdateModal s;
        updateQrCode := updateQrCode s; updateQrCodeBase64 := updateQrCodeBase64 s;
        updateTransactionId := updateTransactionId s; updateExpiresAt := updateExpiresAt s;
        copied := copied s;
        payerEmail := payerEmail s; payerFirstName := payerFirstName s;
        payerLastName := payerLastName s;
        payerIdentificationType := payerIdentificationType s;
        payerIdentificationNumber := v |}) w).

(** *** Collaborators: notifications, fetch, timers, console, clipboard *)

Definition showNotification (m : text) (k : severity) : M unit := λ w,
  (Normal (),
   {| ui := ui w; notices := notices w ++ [mkNotification m k]; sent := sent w;
      inflight := inflight w; next_fetch := next_fetch w;
      timers := timers w; next_timer := next_timer w; now := now w;
      console := console w; clipboard := clipboard w |}).

(** [await authenticatedFetch(...)]: the request leaves now; the code after
    the [await] is parked until the outcome is delivered. *)
Definition authenticatedFetch (r : Request) (k : Awaiting) : M unit := λ w,
  (Normal (),
   {| ui := ui w; notices := notices w; sent := sent w ++ [r];
      inflight := <[next_fetch w := k]> (inflight w);
      next_fetch := S (next_fetch w);
      timers := timers w; next_timer := next_timer w; now := now w;
      console := console w; clipboard := clipboard w |}).

Definition add_timer (tm : Timer) : M nat := λ w,
  (Normal (next_timer w),
   {| ui := ui w; notices := notices w; sent := sent w;
      inflight := inflight w; next_fetch := next_fetch w;
      timers := <[next_timer w := tm]> (timers w);
      next_timer := S (next_timer w); now := now w;
      console := console w; clipboard := clipboard w |}).

Definition setInterval (cb : Callback) (ms : Z) : M nat := λ w,
  add_timer {| callback := cb; repeating := true; delay := ms; due := now w + ms |} w.

Definition setTimeout (cb : Callback) (ms : Z) : M nat := λ w,
  add_timer {| callback := cb; repeating := false; delay := ms; due := now w + ms |} w.

(** [clearInterval] and [clearTimeout] work on the same table. *)
Definition clearInterval (id : nat) : M unit := λ w,
  (Normal (), with_timers (delete id) w).

Definition console_error (e : js_exception) : M unit := λ w,
  (Normal (),
   {| ui := ui w; notices := notices w; sent := sent w;
      inflight := inflight w; next_fetch := next_fetch w;
      timers := timers w; next_timer := next_timer w; now := now w;
      console := console w ++ [e]; clipboard := clipboard w |}).

Definition clipboard_writeText (v : jsval) : M unit := λ w,
  (Normal (),
   {| ui := ui w; notices := notices w; sent := sent w;
      inflight := inflight w; next_fetch := next_fetch w;
      timers := timers w; next_timer := next_timer w; now := now w;
      console := console w; clipboard := Some v |}).

(** The value of [await authenticatedFetch(...)]. *)
Definition await_fetch (o : FetchOutcome) : M Response :=
  match o with
  | Rejected => throw NetworkError
  | Responded r => ret r
  end.

(** [await response.json()]. *)
Definition response_json (r : Response) : M json :=
  match body r with
  | None => throw SyntaxError
  | Some data => ret data
  end.

(** [v || t('key')] as the message of a notification. *)
Definition or_else (v : jsval) (fallback : text) : text :=
  if truthy v then Supplied v else fallback.

(** ** The handlers *)

(** [handleUpdatePlatform], lines 77-91. *)
Definition handleUpdatePlatform (currentUserId : string) : M unit :=
  s <- get_ui ;;
  if is_empty currentUserId then
    showNotification (Translated "header.updateLoginRequired") error
  else if truthy (updateQrCode s) then
    setShowUpdateModal true
  else
    setShowUpdateModal true.

(** [handleSubmitUpdate] up to its first [await], lines 93-126. *)
Definition handleSubmitUpdate (currentUserId : string) : M unit :=
  s <- get_ui ;;
  if is_empty currentUserId then
    showNotification (Translated "header.updateLoginRequired") error
  else if is_empty (payerEmail s) || is_empty (payerFirstName s)
          || is_empty (payerLastName s) then
    showNotification (Translated "wallet.fillPayerInfo") error
  else if is_empty (payerIdentificationNumber s) then
    showNotification (Translated "wallet.enterIdentification") error
  else
    setIsUpdating true ;;;
    authenticatedFetch
      (PLATFORM_UPDATE_REQUEST
         {| email := payerEmail s;
            firstName := payerFirstName s;
            lastName := payerLastName s;
            identification_type := payerIdentificationType s;
            identification_number := strip_non_digits (payerIdentificationNumber s) |})
      SubmitAwaits.

(** [pollUpdateStatus], lines 164-202: register the interval, then the
    timeout that clears it. *)
Definition pollUpdateStatus (txId : jsval) : M unit :=
  interval <- setInterval (PollTick txId) 3000 ;;
  _ <- setTimeout (ClearPoll interval) (5 * 60 * 1000) ;;
  ret ().

(** [handleSubmitUpdate] from the outcome of the request on, lines 111-154. *)
Definition handleSubmitUpdate_resume (o : FetchOutcome) : M unit :=
  try_finally
    (try_catch
       (response <- await_fetch o ;;
        data <- response_json response ;;
        if status response =? 503 then
          showNotification (Translated "wallet.pixNotConfigured") info ;;;
          setIsUpdating false
        else if negb (ok response) then
          err <- lift (get_prop data "error") ;;
          showNotification (or_else err (Translated "header.updateFailed")) error ;;;
          setIsUpdating false
        else
          qrCode <- lift (get_prop data "qrCode") ;;
          setUpdateQrCode qrCode ;;;
          qrCodeBase64 <- lift (get_prop data "qrCodeBase64") ;;
          setUpdateQrCodeBase64 qrCodeBase64 ;;;
          transactionId <- lift (get_prop data "transactionId") ;;
          setUpdateTransactionId transactionId ;;;
          expiresAt <- lift (get_prop data "expiresAt") ;;
          setUpdateExpiresAt expiresAt ;;;
          showNotification (Translated "header.updateQrCodeGenerated") success ;;;
          txId <- lift (get_prop data "transactionId") ;;
          pollUpdateStatus txId)
       (λ _, showNotification (Translated "header.updateFailed") error))
    (setIsUpdating false).

(** [copyToClipboard], lines 157-162. *)
Definition copyToClipboard (v : jsval) : M unit :=
  clipboard_writeText v ;;;
  setCopied true ;;;
  showNotification (Translated "wallet.copiedToClipboard") success ;;;
  _ <- setTimeout ResetCopied 2000 ;;
  ret ().

(** The interval callback up to its [await], lines 165-169. *)
Definition poll_tick (interval : nat) (txId : jsval) : M unit :=
  authenticatedFetch (PLATFORM_UPDATE_STATUS txId) (PollAwaits interval).

(** The interval callback from the outcome of the status request on,
    lines 166-197. *)
Definition poll_tick_resume (interval : nat) (o : FetchOutcome) : M unit :=
  try_catch
    (response <- await_fetch o ;;
     if ok response then
       data <- response_json response ;;
       st <- lift (get_prop data "status") ;;
       if strict_eq_str st "completed" then
         clearInterval interval ;;;
         showNotification (Translated "header.updateCompleted") success ;;;
         setShowUpdateModal false ;;;
         setUpdateQrCode (J JNull) ;;;
         setUpdateQrCodeBase64 (J JNull) ;;;
         setUpdateTransactionId (J JNull) ;;;
         setUpdateExpiresAt (J JNull) ;;;
         setPayerEmail "" ;;;
         setPayerFirstName "" ;;;
         setPayerLastName "" ;;;
         setPayerIdentificationNumber ""
       else if strict_eq_str st "failed" then
         clearInterval interval ;;;
         errorMessage <- lift (get_prop data "errorMessage") ;;
         showNotification (or_else errorMessage (Translated "header.updateFailed")) error ;;;
         setShowUpdateModal false ;;;
         setUpdateQrCode (J JNull) ;;;
         setUpdateQrCodeBase64 (J JNull) ;;;
         setUpdateTransactionId (J JNull) ;;;
         setUpdateExpiresAt (J JNull)
       else ret ()
     else ret ())
    (λ e, console_error e).

(** The close button of the update modal, lines 268-276. *)
Definition closeUpdateModal : M unit :=
  s <- get_ui ;;
  setShowUpdateModal false ;;;
  if truthy (updateQrCode s) then
    setUpdateQrCode (J JNull) ;;;
    setUpdateQrCodeBase64 (J JNull) ;;;
    setUpdateTransactionId (J JNull) ;;;
    setUpdateExpiresAt (J JNull)
  else ret ().

Definition exec {A} (m : M A) (w : World) : World := snd (m w).
Definition result {A} (m : M A) (w : World) : completion A := fst (m w).

(** ** The event loop

    One step is one task of the browser: a user action on the component, a
    timer that is due, the outcome of a request in flight, or time passing.
    Timers are exact: time does not pass a timer that is due.  User actions
    are not restricted to what the current render offers, so every statement
    over steps covers more runs than the page allows. *)

Inductive Field : Type :=
| FirstName | LastName | Email | IdentificationType | IdentificationNumber.

Inductive Event : Type :=
| ClickUpdate (currentUserId : string)   (* line 230 *)
| ClickSubmit (currentUserId : string)   (* line 404 *)
| ClickClose                             (* line 268 *)
| ClickCopy                              (* line 303 *)
| Change (f : Field) (value : string)    (* lines 338, 351, 366, 380, 394 *)
| Fire (id : nat)
| Deliver (fetch : nat) (o : FetchOutcome)
| Advance (dt : Z).

Definition onChange (f : Field) (value : string) : M unit :=
  match f with
  | FirstName => setPayerFirstName value
  | LastName => setPayerLastName value
  | Email => setPayerEmail value
  | IdentificationType => setPayerIdentificationType value
  | IdentificationNumber => setPayerIdentificationNumber value
  end.

Definition run_callback (id : nat) (cb : Callback) : M unit :=
  match cb with
  | PollTick txId => poll_tick id txId
  | ClearPoll interval => clearInterval interval
  | ResetCopied => setCopied false
  end.

(** A timeout leaves the table when it fires; an interval is put back one
    period later. *)
Definition fire (id : nat) (tm : Timer) : M unit :=
  (if repeating tm then
     λ w, (Normal (),
           with_timers
             (<[id := {| callback := callback tm; repeating := true;
                         delay := delay tm; due := due tm + delay tm |}]>) w)
   else clearInterval id) ;;;
  run_callback id (callback tm).

Definition resume (k : Awaiting) (o : FetchOutcome) : M unit :=
  match k with
  | SubmitAwaits => handleSubmitUpdate_resume o
  | PollAwaits interval => poll_tick_resume interval o
  end.

Definition settle (fetch : nat) (w : World) : World :=
  {| ui := ui w; notices := notices w; sent := sent w;
     inflight := delete fetch (inflight w); next_fetch := next_fetch w;
     timers := timers w; next_timer := next_timer w; now := now w;
     console := console w; clipboard := clipboard w |}.

Definition tick_clock (dt : Z) (w : World) : World :=
  {| ui := ui w; notices := notices w; sent := sent w;
     inflight := inflight w; next_fetch := next_fetch w;
     timers := timers w; next_timer := next_timer w; now := now w + dt;
     console := console w; clipboard := clipboard w |}.

Definition may_advance (dt : Z) (w : World) : Prop :=
  0 < dt ∧ map_Forall (λ _ tm, now w + dt ≤ due tm) (timers w).

Definition step (e : Event) (w : World) : option World :=
  match e with
  | ClickUpdate uid => Some (exec (handleUpdatePlatform uid) w)
  | ClickSubmit uid => Some (exec (handleSubmitUpdate uid) w)
  | ClickClose => Some (exec closeUpdateModal w)
  | ClickCopy => Some (exec (copyToClipboard (updateQrCode (ui w))) w)
  | Change f value => Some (exec (onChange f value) w)
  | Fire id =>
      match timers w !! id with
      | Some tm => if due tm <=? now w then Some (exec (fire id tm) w) else None
      | None => None
      end
  | Deliver fetch o =>
      match inflight w !! fetch with
      | Some k => Some (exec (resume k o) (settle fetch w))
      | None => None
      end
  | Advance dt =>
      if bool_decide (may_advance dt w) then Some (tick_clock dt w) else None
  end.

Fixpoint run (evs : list Event) (w : World) : option World :=
  match evs with
  | [] => Some w
  | e :: rest =>
      match step e w with
      | Some w' => run rest w'
      | None => None
      end
  end.

Definition reachable (w : World) : Prop :=
  ∃ evs, run evs initial_world = Some w.

(** ** Vocabulary of the statements *)

(** The four [ChargeResponse] cells are back at [null]. *)
Definition charge_cleared (s : State) : Prop :=
  updateQrCode s = J JNull ∧ updateQrCodeBase64 s = J JNull ∧
  updateTransactionId s = J JNull ∧ updateExpiresAt s = J JNull.

(** The text inputs of the payer form are empty. *)
Definition payer_cleared (s : State) : Prop :=
  payerEmail s = "" ∧ payerFirstName s = "" ∧
  payerLastName s = "" ∧ payerIdentificationNumber s = "".

Definition same_payer (s s' : State) : Prop :=
  payerEmail s' = payerEmail s ∧ payerFirstName s' = payerFirstName s ∧
  payerLastName s' = payerLastName s ∧
  payerIdentificationType s' = payerIdentificationType s ∧
  payerIdentificationNumber s' = payerIdentificationNumber s.

Definition same_charge (s s' : State) : Prop :=
  updateQrCode s' = updateQrCode s ∧
  updateQrCodeBase64 s' = updateQrCodeBase64 s ∧
  updateTransactionId s' = updateTransactionId s ∧
  updateExpiresAt s' = updateExpiresAt s.

(** The two notices of the validation block, lines 99-108. *)
Definition validation_notice (n : Notification) : Prop :=
  kind n = error ∧
  (message n = Translated "wallet.fillPayerInfo" ∨
   message n = Translated "wallet.enterIdentification").

(** The interval that [pollUpdateStatus] registers when called at time
    [started]. *)
Definition poll_timer (txId : jsval) (started : Z) : Timer :=
  {| callback := PollTick txId; repeating := true; delay := 3000; due := started + 3000 |}.

(** The ceiling that [pollUpdateStatus] registers for the interval it has
    just created, when called at time [started]. *)
Definition ceiling (interval : nat) (started : Z) : Timer :=
  {| callback := ClearPoll interval; repeating := false;
     delay := 5 * 60 * 1000; due := started + 5 * 60 * 1000 |}.

(** A poll response that ends the poll: success, with [status] equal to
    ['completed'] or ['failed']. *)
Definition terminal_response (r : Response) : Prop :=
  ok r = true ∧
  ∃ props, body r = Some (JObj props) ∧
    (own_prop "status" props = J (JStr "completed") ∨
     own_prop "status" props = J (JStr "failed")).

(** The outcomes of a status request that leave the charge pending: the
    request failed, the response is not a success, its body is not JSON, or
    its [status] is neither ['completed'] nor ['failed']. *)
Definition pending_outcome (o : FetchOutcome) : Prop :=
  match o with
  | Rejected => True
  | Responded r =>
      ok r = false ∨
      match body r with
      | None => True
      | Some data =>
          ∀ st, get_prop data "status" = Normal st →
                strict_eq_str st "completed" = false ∧ strict_eq_str st "failed" = false
      end
  end.

(** How an event can take interval [i] out of the timer table. *)
Definition stopped_by_terminal_status (i : nat) (e : Event) (w : World) : Prop :=
  ∃ fetch r, e = Deliver fetch (Responded r) ∧
             inflight w !! fetch = Some (PollAwaits i) ∧ terminal_response r.

Definition stopped_by_ceiling (i : nat) (e : Event) (w : World) : Prop :=
  ∃ id started, e = Fire id ∧ timers w !! id = Some (ceiling i started) ∧
                now w = started + 5 * 60 * 1000.

(** ** Well-formed worlds

    What every world reached from [initial_world] satisfies: timer ids are
    below the next id, no timer is overdue, each callback sits in the kind of
    timer the source registers it with, and whoever holds an interval id
    ([ClearPoll], a parked poll tick) holds the id of a poll interval. *)

Definition is_poll (tm : Timer) : Prop := ∃ txId, callback tm = PollTick txId.

Definition names_interval (w : World) (j : nat) : Prop :=
  (j < next_timer w)%nat ∧ ∀ tm, timers w !! j = Some tm → is_poll tm.

Definition timer_ok (w : World) (id : nat) (tm : Timer) : Prop :=
  (id < next_timer w)%nat ∧ now w ≤ due tm ∧
  match callback tm with
  | PollTick _ => repeating tm = true ∧ delay tm = 3000
  | ClearPoll j =>
      repeating tm = false ∧ delay tm = 5 * 60 * 1000 ∧ names_interval w j
  | ResetCopied => repeating tm = false ∧ delay tm = 2000
  end.

Definition awaiting_ok (w : World) (k : Awaiting) : Prop :=
  match k with
  | SubmitAwaits => True
  | PollAwaits j => names_interval w j
  end.

Definition wf (w : World) : Prop :=
  map_Forall (timer_ok w) (timers w) ∧
  map_Forall (λ _ k, awaiting_ok w k) (inflight w).

(** What holds from a call of [pollUpdateStatus] at time [started] on, for
    the interval [i] it creates and the timeout [S i] that guards it. *)
Definition poll_guarded (i : nat) (started : Z) (w : World) : Prop :=
  (S i < next_timer w)%nat ∧
  (∀ tm, timers w !! S i = Some tm → tm = ceiling i started) ∧
  (is_Some (timers w !! i) → is_Some (timers w !! S i)).

(** The notice of the [catch] block of [handleSubmitUpdate], line 151. *)
Definition generic_failure : Notification :=
  {| message := Translated "header.updateFailed"; kind := error |}.

(** The outcomes of the charge request that are not a success response. *)
Definition non_success (o : FetchOutcome) : Prop :=
  match o with
  | Rejected => True
  | Responded r => ok r = false
  end.

(** ** What a step does to the scheduler

    The scheduler side of the world is the timer table, the next timer id,
    the clock and the parked requests.  Each step changes it in one of ten
    ways. *)

(** An interval after a tick: due one period later. *)
Definition later (tm : Timer) : Timer :=
  {| callback := callback tm; repeating := true; delay := delay tm;
     due := due tm + delay tm |}.

Inductive effect (e : Event) (w w' : World) : Prop :=
| eff_ui :
    timers w' = timers w → next_timer w' = next_timer w → now w' = now w →
    inflight w' = inflight w → effect e w w'
| eff_park :
    timers w' = timers w → next_timer w' = next_timer w → now w' = now w →
    inflight w' = <[next_fetch w := SubmitAwaits]> (inflight w) → effect e w w'
| eff_settle fetch :
    timers w' = timers w → next_timer w' = next_timer w → now w' = now w →
    inflight w' = delete fetch (inflight w) → effect e w w'
| eff_terminal fetch r j :
    e = Deliver fetch (Responded r) →
    inflight w !! fetch = Some (PollAwaits j) → terminal_response r →
    timers w' = delete j (timers w) → next_timer w' = next_timer w →
    now w' = now w → inflight w' = delete fetch (inflight w) → effect e w w'
| eff_poll_started fetch txId :
    timers w' = <[S (next_timer w) := ceiling (next_timer w) (now w)]>
                  (<[next_timer w := poll_timer txId (now w)]> (timers w)) →
    next_timer w' = S (S (next_timer w)) → now w' = now w →
    inflight w' = delete fetch (inflight w) → effect e w w'
| eff_copy :
    timers w' = <[next_timer w := {| callback := ResetCopied; repeating := false;
                                     delay := 2000; due := now w + 2000 |}]> (timers w) →
    next_timer w' = S (next_timer w) → now w' = now w →
    inflight w' = inflight w → effect e w w'
| eff_tick id tm txId :
    e = Fire id → timers w !! id = Some tm → callback tm = PollTick txId →
    due tm ≤ now w →
    timers w' = <[id := later tm]> (timers w) → next_timer w' = next_timer w →
    now w' = now w →
    inflight w' = <[next_fetch w := PollAwaits id]> (inflight w) → effect e w w'
| eff_ceiling id tm j :
    e = Fire id → timers w !! id = Some tm → callback tm = ClearPoll j →
    due tm ≤ now w →
    timers w' = delete j (delete id (timers w)) → next_timer w' = next_timer w →
    now w' = now w → inflight w' = inflight w → effect e w w'
| eff_copied_reset id tm :
    e = Fire id → timers w !! id = Some tm → callback tm = ResetCopied →
    timers w' = delete id (timers w) → next_timer w' = next_timer w →
    now w' = now w → inflight w' = inflight w → effect e w w'
| eff_advance dt :
    may_advance dt w →
    timers w' = timers w → next_timer w' = next_timer w → now w' = now w + dt →
    inflight w' = inflight w → effect e w w'.

(** ** Sample worlds *)

(** The form as a user has filled it. *)
Definition filled_form : State :=
  {| isUpdating := false; showUpdateModal := true;
     updateQrCode := J JNull; updateQrCodeBase64 := J JNull;
     updateTransactionId := J JNull; updateExpiresAt := J JNull;
     copied := false;
     payerEmail := "john.doe@example.com"; payerFirstName := "John";
     payerLastName := "Doe";
     payerIdentificationType := "CPF";
     payerIdentificationNumber := "000.000.000-00" |}.

Definition charge_body : json :=
  JObj [("qrCode", JStr "00020126"); ("qrCodeBase64", JStr "data:image/png;base64,AAAA");
        ("transactionId", JStr "tx-1"); ("expiresAt", JStr "2026-01-01T00:00:00Z")].

(** Fill the form, submit, receive the charge: the code is on display and
    the poll is running. *)
Definition to_displaying : list Event :=
  [ClickUpdate "u1"; Change FirstName "John"; Change LastName "Doe";
   Change Email "john.doe@example.com"; Change IdentificationNumber "000.000.000-00";
   ClickSubmit "u1";
   Deliver 0 (Responded {| status := 200; body := Some charge_body |})].

(** A world around a given component state, nothing sent or scheduled. *)
Definition demo_world (s : State) : World :=
  {| ui := s; notices := []; sent := []; inflight := ∅;
     next_fetch := 0%nat; timers := ∅; next_timer := 1%nat; now := 0;
     console := []; clipboard := None |}.

Definition form_without_email : State :=
  {| isUpdating := false; showUpdateModal := true;
     updateQrCode := J JNull; updateQrCodeBase64 := J JNull;
     updateTransactionId := J JNull; updateExpiresAt := J JNull;
     copied := false;
     payerEmail := ""; payerFirstName := "John"; payerLastName := "Doe";
     payerIdentificationType := "CPF";
     payerIdentificationNumber := "000.000.000-00" |}.

Definition form_with_letters : State :=
  {| isUpdating := false; showUpdateModal := true;
     updateQrCode := J JNull; updateQrCodeBase64 := J JNull;
     updateTransactionId := J JNull; updateExpiresAt := J JNull;
     copied := false;
     payerEmail := "john.doe@example.com"; payerFirstName := "John";
     payerLastName := "Doe";
     payerIdentificationType := "CPF";
     payerIdentificationNumber := "abc" |}.

(** The world [to_displaying] leads to, written out. *)
Definition displaying_world : World :=
  {| ui := {| isUpdating := false; showUpdateModal := true;
              updateQrCode := J (JStr "00020126");
              updateQrCodeBase64 := J (JStr "data:image/png;base64,AAAA");
              updateTransactionId := J (JStr "tx-1");
              updateExpiresAt := J (JStr "2026-01-01T00:00:00Z");
              copied := false;
              payerEmail := "john.doe@example.com"; payerFirstName := "John";
              payerLastName := "Doe"; payerIdentificationType := "CPF";
              payerIdentificationNumber := "000.000.000-00" |};
     notices := [{| message := Translated "header.updateQrCodeGenerated"; kind := success |}];
     sent := [PLATFORM_UPDATE_REQUEST
                {| email := "john.doe@example.com"; firstName := "John";
                   lastName := "Doe"; identification_type := "CPF";
                   identification_number := "00000000000" |}];
     inflight := ∅; next_fetch := 1%nat;
     timers := <[2%nat := ceiling 1 0]>
                 (<[1%nat := {| callback := PollTick (J (JStr "tx-1")); repeating := true;
                               delay := 3000; due := 3000 |}]> ∅);
     next_timer := 3%nat; now := 0; console := []; clipboard := None |}.

(** The first poll tick has gone out and its answer is awaited. *)
Definition polling_events : list Event := to_displaying ++ [Advance 3000; Fire 1%nat].

Definition polling_world : World :=
  default initial_world (run polling_events initial_world).

(** [n] poll ticks of interval [id], one period apart, none answered. *)
Fixpoint ticks (id : nat) (n : nat) : list Event :=
  match n with
  | O => []
  | S n' => Advance 3000 :: Fire id :: ticks id n'
  end.

Definition completed_response : Response :=
  {| status := 200; body := Some (JObj [("status", JStr "completed")]) |}.

(** ** The rest of the component

    What the claims leave out of [Header.tsx]: the values computed at the
    top of the component, what the render offers to click, and the logout
    and logo handlers. *)

(** *** Props and ambient storage (lines 12-23, 41) *)

(** The callbacks are kept as "provided or not": what they do is the
    caller's business. *)
Record HeaderProps : Type := mkHeaderProps {
  username : option string;
  isConnected : bool;
  onLogout : bool;
  userId : option string;
  onNavigate : bool
}.

(** [localStorage.getItem(k)]: the stored string, or [null]. *)
Definition getItem (storage : gmap string string) (k : string) : option string :=
  storage !! k.

(** [a || b] where both may be [undefined] / [null]. *)
Definition or_string (a b : option string) : option string :=
  match a with
  | Some s => if is_empty s then b else a
  | None => b
  end.

(** [a || 'lit']. *)
Definition or_literal (a : option string) (lit : string) : string :=
  match a with
  | Some s => if is_empty s then lit else s
  | None => lit
  end.

(** Line 23; [guest] is the value of [t('common.guest')]. *)
Definition displayUsername (p : HeaderProps) (storage : gmap string string)
    (guest : string) : string :=
  or_literal
    (or_string (or_string (username p) (getItem storage "displayUsername"))
               (getItem storage "username"))
    guest.

(** Line 41. *)
Definition currentUserId (p : HeaderProps) (storage : gmap string string) : string :=
  or_literal (or_string (userId p) (getItem storage "userId")) "".

(** *** What the render offers *)

(** Lines 207 and 228: the donation banner and the update button. *)
Definition update_button_rendered (p : HeaderProps) (storage : gmap string string)
    (guest : string) : bool :=
  negb (String.eqb (displayUsername p storage guest) guest)
  && negb (is_empty (currentUserId p storage)).

(** Line 249: the logout button. *)
Definition logout_button_rendered (p : HeaderProps) (storage : gmap string string)
    (guest : string) : bool :=
  negb (String.eqb (displayUsername p storage guest) guest).

(** The [disabled] attribute of the submit button, lines 405-411. *)
Definition submit_disabled (s : State) : bool :=
  isUpdating s || is_empty (payerEmail s) || is_empty (payerFirstName s)
  || is_empty (payerLastName s) || is_empty (payerIdentificationNumber s).

(** What the modal shows, lines 264 and 282. *)
Inductive View : Type := Hidden | CodeView | FormView.

Definition view (s : State) : View :=
  if showUpdateModal s then
    if truthy (updateQrCode s) then CodeView else FormView
  else Hidden.

(** The events the current render lets happen: the update button is there
    with a user identity and is disabled while busy (lines 228-231), the
    modal's close button needs the modal (line 264), the copy button the
    code view, the inputs and the submit button the form view (line 282),
    and the submit button is enabled (line 405).  Timers, responses and
    time are not the render's to offer. *)
Definition offered (e : Event) (w : World) : bool :=
  match e with
  | ClickUpdate uid => negb (is_empty uid) && negb (isUpdating (ui w))
  | ClickSubmit _ =>
      match view (ui w) with
      | FormView => negb (submit_disabled (ui w))
      | _ => false
      end
  | ClickClose => showUpdateModal (ui w)
  | ClickCopy => match view (ui w) with CodeView => true | _ => false end
  | Change _ _ => match view (ui w) with FormView => true | _ => false end
  | Fire _ | Deliver _ _ | Advance _ => true
  end.

Definition ui_step (e : Event) (w : World) : option World :=
  if offered e w then step e w else None.

Fixpoint ui_run (evs : list Event) (w : World) : option World :=
  match evs with
  | [] => Some w
  | e :: rest =>
      match ui_step e w with
      | Some w' => ui_run rest w'
      | None => None
      end
  end.

Definition ui_reachable (w : World) : Prop :=
  ∃ evs, ui_run evs initial_world = Some w.

(** *** Logout and logo (lines 43-75)

    These two handlers touch nothing of the component state; what they do
    to the outside is kept as a log. *)

Inductive Outside : Type :=
| ShowConfirm (message : text) (type : string) (title confirmText cancelText : text)
| ClearAuth
| DisconnectSocket
| CallOnLogout
| CallOnNavigate (page : string)
| SetLocation (href : string).

(** [handleLogout] up to its [await], lines 43-49. *)
Definition handleLogout (log : list Outside) : list Outside :=
  log ++ [ShowConfirm (Translated "header.logoutConfirm") "warning"
            (Translated "header.logoutTitle") (Translated "common.logout")
            (Translated "common.cancel")].

(** [handleLogout] from the answer of the dialog on, lines 51-65. *)
Definition handleLogout_resume (p : HeaderProps) (confirmed : bool)
    (log : list Outside) : list Outside :=
  if confirmed then
    log ++ [ClearAuth] ++ [DisconnectSocket]
        ++ [if onLogout p then CallOnLogout else SetLocation "/"]
  else log.

(** [handleLogoClick], lines 68-75. *)
Definition handleLogoClick (p : HeaderProps) (log : list Outside) : list Outside :=
  log ++ [if onNavigate p then CallOnNavigate "home" else SetLocation "/"].

Inductive HeaderEvent : Type :=
| LogoutClick
| LogoutAnswer (p : HeaderProps) (confirmed : bool)
| LogoClick (p : HeaderProps).

Definition outside_step (e : HeaderEvent) (log : list Outside) : list Outside :=
  match e with
  | LogoutClick => handleLogout log
  | LogoutAnswer p confirmed => handleLogout_resume p confirmed log
  | LogoClick p => handleLogoClick p log
  end.

Definition outside_run (evs : list HeaderEvent) : list Outside :=
  fold_left (λ log e, outside_step e log) evs [].

(** *** Vocabulary of the further statements *)

(** Every call of [onLogout] in the log comes right after the clean-up. *)
Definition cleaned_before_logout (log : list Outside) : Prop :=
  ∀ l1 l2, log = l1 ++ CallOnLogout :: l2 → ∃ l0, l1 = l0 ++ [ClearAuth; DisconnectSocket].


(** A charge request as the validation of lines 99-108 lets it out. *)
Definition valid_request (r : Request) : Prop :=
  match r with
  | PLATFORM_UPDATE_REQUEST p =>
      email p ≠ "" ∧ firstName p ≠ "" ∧ lastName p ≠ "" ∧
      all_digits (identification_number p) = true
  | PLATFORM_UPDATE_STATUS _ => True
  end.

(** A success response whose body can be read and is not [null]. *)
Definition accepted (o : FetchOutcome) : Prop :=
  ∃ r data, o = Responded r ∧ ok r = true ∧ body r = Some data ∧ data ≠ JNull.

(** The timeout that [copyToClipboard] registers at time [at]. *)
Definition copied_reset (at_ : Z) : Timer :=
  {| callback := ResetCopied; repeating := false; delay := 2000; due := at_ + 2000 |}.

(** Two entries of the timer table that differ in their due time at most. *)
Definition same_kind (tm tm' : Timer) : Prop :=
  callback tm' = callback tm ∧ repeating tm' = repeating tm ∧ delay tm' = delay tm.

(** Parked requests have ids below the next one. *)
Definition fresh_fetches (w : World) : Prop :=
  ∀ f k, inflight w !! f = Some k → (f < next_fetch w)%nat.

Definition charge_in_flight (w : World) : Prop :=
  ∃ f, inflight w !! f = Some SubmitAwaits.

(** The world with the busy flag forced to [b], for statements about what a
    handler does not look at. *)
Definition with_busy (b : bool) (w : World) : World :=
  exec (setIsUpdating b) w.

(** Every poll interval in the table is guarded by its ceiling. *)
Definition all_guarded (w : World) : Prop :=
  ∀ i tm, timers w !! i = Some tm → is_poll tm → ∃ started, poll_guarded i started w.

(** What one step does to the busy flag and the parked requests. *)
Inductive busy_effect (e : Event) (w w' : World) : Prop :=
| be_same :
    isUpdating (ui w') = isUpdating (ui w) → inflight w' = inflight w →
    next_fetch w' = next_fetch w → busy_effect e w w'
| be_submit uid :
    e = ClickSubmit uid →
    isUpdating (ui w') = true →
    inflight w' = <[next_fetch w := SubmitAwaits]> (inflight w) →
    next_fetch w' = S (next_fetch w) → busy_effect e w w'
| be_tick id :
    isUpdating (ui w') = isUpdating (ui w) →
    inflight w' = <[next_fetch w := PollAwaits id]> (inflight w) →
    next_fetch w' = S (next_fetch w) → busy_effect e w w'
| be_charge_settled fetch :
    inflight w !! fetch = Some SubmitAwaits →
    isUpdating (ui w') = false → inflight w' = delete fetch (inflight w) →
    next_fetch w' = next_fetch w → busy_effect e w w'
| be_poll_settled fetch interval :
    inflight w !! fetch = Some (PollAwaits interval) →
    isUpdating (ui w') = isUpdating (ui w) → inflight w' = delete fetch (inflight w) →
    next_fetch w' = next_fetch w → busy_effect e w w'.

(** At most one charge request is parked, and the busy flag says whether
    one is. *)
Definition single_flight (w : World) : Prop :=
  fresh_fetches w ∧
  (isUpdating (ui w) = true ↔ charge_in_flight w) ∧
  (∀ f g, inflight w !! f = Some SubmitAwaits → inflight w !! g = Some SubmitAwaits → f = g).

(** The form is filled and submitted; the charge request is in flight. *)
Definition to_charging : list Event :=
  [ClickUpdate "u1"; Change FirstName "John"; Change LastName "Doe";
   Change Email "john.doe@example.com"; Change IdentificationNumber "000.000.000-00";
   ClickSubmit "u1"].

Definition charging_world : World :=
  default initial_world (run to_charging initial_world).

(** A props record for the sample runs: a named user, a logout callback. *)
Definition sample_props : HeaderProps :=
  {| username := Some "ana"; isConnected := true; onLogout := true;
     userId := Some "u1"; onNavigate := false |}.

(** ** Sanity runs *)

Example displaying_runs :
  (λ w, (updateQrCode (ui w), isUpdating (ui w), showUpdateModal (ui w),
         sent w, timers w !! 1%nat, timers w !! 2%nat)) <$> run to_displaying initial_world
  = Some (J (JStr "00020126"), false, true,
          [PLATFORM_UPDATE_REQUEST
             {| email := "john.doe@example.com"; firstName := "John"; lastName := "Doe";
                identification_type := "CPF"; identification_number := "00000000000" |}],
          Some {| callback := PollTick (J (JStr "tx-1")); repeating := true;
                  delay := 3000; due := 3000 |},
          Some {| callback := ClearPoll 1; repeating := false;
                  delay := 300000; due := 300000 |}).
Proof. vm_compute. reflexivity. Qed.

Example displaying_world_reached : run to_displaying initial_world = Some displaying_world.
Proof. vm_compute. reflexivity. Qed.

(** ** Proof tools *)

Ltac unfold_projections :=
  cbn [ui notices sent inflight next_fetch timers next_timer now console clipboard
       isUpdating showUpdateModal updateQrCode updateQrCodeBase64
       updateTransactionId updateExpiresAt copied payerEmail payerFirstName
       payerLastName payerIdentificationType payerIdentificationNumber
       message kind fst snd] in *.

(** Name the cells of a world, so that the handlers compute on it. *)
Ltac open_world w :=
  let s := fresh "s" in
  destruct w as [s w_notices w_sent w_inflight w_next_fetch w_timers
                   w_next_timer w_now w_console w_clipboard];
  destruct s as [w_busy w_shown w_qr w_qr64 w_tx w_expires w_copied
                   w_email w_first w_last w_idtype w_idnumber];
  unfold_projections.

Ltac unfold_handlers :=
  cbv [exec result resume settle tick_clock
       handleUpdatePlatform handleSubmitUpdate handleSubmitUpdate_resume
       pollUpdateStatus copyToClipboard poll_tick poll_tick_resume closeUpdateModal
       onChange run_callback fire
       bind ret throw lift try_catch try_finally get_ui await_fetch response_json
       showNotification authenticatedFetch add_timer setInterval setTimeout
       clearInterval console_error clipboard_writeText
       setIsUpdating setShowUpdateModal setUpdateQrCode setUpdateQrCodeBase64
       setUpdateTransactionId setUpdateExpiresAt setCopied setPayerEmail
       setPayerFirstName setPayerLastName setPayerIdentificationType
       setPayerIdentificationNumber with_ui with_timers
       ui notices sent inflight next_fetch timers next_timer now console clipboard
       isUpdating showUpdateModal updateQrCode updateQrCodeBase64
       updateTransactionId updateExpiresAt copied payerEmail payerFirstName
       payerLastName payerIdentificationType payerIdentificationNumber
       fst snd].

Lemma is_empty_true (s : string) : is_empty s = true ↔ s = "".
Proof. unfold is_empty. apply String.eqb_eq. Qed.

Lemma is_empty_false (s : string) : is_empty s = false ↔ s ≠ "".
Proof. unfold is_empty. apply String.eqb_neq. Qed.

Lemma truthy_nonempty_string (s : string) : s ≠ "" → truthy (J (JStr s)) = true.
Proof. intros H. cbn. apply is_empty_false in H. unfold is_empty in H. now rewrite H. Qed.

(** ** The digit filter *)

Lemma strip_non_digits_all_digits (s : string) :
  all_digits (strip_non_digits s) = true.
Proof.
  induction s as [|c rest IH]; cbn; [reflexivity|].
  destruct (is_digit c) eqn:Hc; cbn; [rewrite Hc|]; exact IH.
Qed.

Lemma strip_non_digits_fixes_digits (s : string) :
  all_digits s = true → strip_non_digits s = s.
Proof.
  induction s as [|c rest IH]; cbn; [reflexivity|].
  destruct (is_digit c); cbn; [|discriminate].
  intros H. now rewrite IH.
Qed.

Lemma strip_non_digits_idempotent (s : string) :
  strip_non_digits (strip_non_digits s) = strip_non_digits s.
Proof. apply strip_non_digits_fixes_digits, strip_non_digits_all_digits. Qed.

(** ** The close button *)

(** C10: in the form view (no code generated) the close button only hides
    the modal: the five payer inputs, the four charge cells and everything
    outside the component state are as before, so what the user typed is
    still there when the modal is opened again. *)
Theorem close_form_view_keeps_input (w : World) :
  truthy (updateQrCode (ui w)) = false →
  let w' := exec closeUpdateModal w in
  step ClickClose w = Some w' ∧
  showUpdateModal (ui w') = false ∧
  same_payer (ui w) (ui w') ∧ same_charge (ui w) (ui w') ∧
  isUpdating (ui w') = isUpdating (ui w) ∧ copied (ui w') = copied (ui w) ∧
  notices w' = notices w ∧ sent w' = sent w ∧ inflight w' = inflight w ∧
  timers w' = timers w ∧
  (∀ uid, uid ≠ "" →
     let w'' := exec (handleUpdatePlatform uid) w' in
     showUpdateModal (ui w'') = true ∧
     same_payer (ui w) (ui w'') ∧ same_charge (ui w) (ui w'')).
Proof.
  intros Hqr. split; [reflexivity|].
  unfold same_payer, same_charge. open_world w.
  unfold_handlers. rewrite Hqr. cbn. repeat split; try reflexivity;
    match goal with H : _ ≠ "" |- _ => apply is_empty_false in H; rewrite H end;
    cbn; rewrite Hqr; reflexivity.
Qed.

Lemma close_form_view_keeps_input_witness :
  step ClickClose (demo_world filled_form)
  = Some (exec closeUpdateModal (demo_world filled_form)) ∧
  showUpdateModal (ui (exec closeUpdateModal (demo_world filled_form))) = false ∧
  same_payer filled_form (ui (exec closeUpdateModal (demo_world filled_form))).
Proof.
  destruct (close_form_view_keeps_input (demo_world filled_form) eq_refl)
    as (Hstep & Hshown & Hpayer & _).
  split; [exact Hstep|]. split; [exact Hshown|exact Hpayer].
Defined.

(** ** Opening the modal *)

(** C9: while a code is on display, [handleUpdatePlatform] sends nothing and
    registers nothing, however often it is called; with a user identity the
    second call changes nothing at all, and what both calls do is show the
    modal over the code that is already there. *)
Theorem initiate_twice_no_request (w : World) (uid : string) :
  truthy (updateQrCode (ui w)) = true →
  let w1 := exec (handleUpdatePlatform uid) w in
  let w2 := exec (handleUpdatePlatform uid) w1 in
  sent w1 = sent w ∧ sent w2 = sent w ∧
  inflight w2 = inflight w ∧ timers w2 = timers w ∧
  same_charge (ui w) (ui w2) ∧ same_payer (ui w) (ui w2) ∧
  (uid ≠ "" →
   w2 = w1 ∧ showUpdateModal (ui w2) = true ∧ notices w2 = notices w).
Proof.
  intros Hqr. unfold same_payer, same_charge. open_world w.
  unfold_handlers.
  destruct (is_empty uid) eqn:Huid; rewrite ?Hqr; cbn; rewrite ?Huid, ?Hqr; cbn;
    repeat split; try reflexivity;
    match goal with H : uid ≠ "" |- _ => apply is_empty_false in H; congruence end.
Qed.

Lemma initiate_twice_no_request_witness :
  sent (exec (handleUpdatePlatform "u1") (displaying_world)) = sent displaying_world.
Proof.
  refine (proj1 (initiate_twice_no_request displaying_world "u1" _)).
  reflexivity.
Defined.

(** Without a user identity [handleUpdatePlatform] sends nothing either. *)
Lemma initiate_never_sends (w : World) (uid : string) :
  sent (exec (handleUpdatePlatform uid) w) = sent w ∧
  inflight (exec (handleUpdatePlatform uid) w) = inflight w ∧
  timers (exec (handleUpdatePlatform uid) w) = timers w.
Proof.
  open_world w. unfold_handlers.
  destruct (is_empty uid); [|destruct (truthy w_qr)]; cbn; repeat split.
Qed.

(** ** Submitting the form: validation *)

(** C6, as the code has it: with one of the four text fields empty,
    [handleSubmitUpdate] sends nothing and changes no state; it shows one
    error notice, which is a validation notice whenever a user identity is
    present, and the login notice of the guard at line 94 when there is
    none. *)
Theorem submit_empty_field_no_request (w : World) (uid : string) :
  payerEmail (ui w) = "" ∨ payerFirstName (ui w) = "" ∨
  payerLastName (ui w) = "" ∨ payerIdentificationNumber (ui w) = "" →
  let w' := exec (handleSubmitUpdate uid) w in
  sent w' = sent w ∧ inflight w' = inflight w ∧ ui w' = ui w ∧
  timers w' = timers w ∧
  result (handleSubmitUpdate uid) w = Normal () ∧
  (uid ≠ "" → ∃ n, notices w' = notices w ++ [n] ∧ validation_notice n) ∧
  (uid = "" →
   notices w' = notices w ++
     [{| message := Translated "header.updateLoginRequired"; kind := error |}]).
Proof.
  intros Hempty. open_world w. unfold_handlers.
  destruct (is_empty uid) eqn:Huid; cbn.
  - repeat split; try reflexivity.
    apply is_empty_true in Huid. congruence.
  - assert (Hne : uid ≠ "") by now apply is_empty_false.
    destruct (is_empty w_email) eqn:He;
      destruct (is_empty w_first) eqn:Hf;
      destruct (is_empty w_last) eqn:Hl; cbn;
      try (repeat split; try reflexivity; try congruence;
           eexists; split; [reflexivity|]; split; cbn; auto; fail).
    destruct (is_empty w_idnumber) eqn:Hn; cbn.
    + repeat split; try reflexivity; try congruence.
      eexists; split; [reflexivity|]; split; cbn; auto.
    + apply is_empty_false in He, Hf, Hl, Hn. tauto.
Qed.

Lemma submit_empty_field_no_request_witness :
  sent (exec (handleSubmitUpdate "u1") (demo_world form_without_email))
  = sent (demo_world form_without_email).
Proof.
  refine (proj1 (submit_empty_field_no_request (demo_world form_without_email) "u1" _)).
  left. reflexivity.
Defined.

(** C6 as stated fails without a user identity: the email is empty, and the
    one notice shown is the login notice, not a validation notice. *)
Lemma submit_empty_field_without_identity :
  payerEmail (ui (demo_world form_without_email)) = "" ∧
  sent (exec (handleSubmitUpdate "") (demo_world form_without_email)) = [] ∧
  notices (exec (handleSubmitUpdate "") (demo_world form_without_email))
  = [{| message := Translated "header.updateLoginRequired"; kind := error |}] ∧
  ¬ validation_notice
      {| message := Translated "header.updateLoginRequired"; kind := error |}.
Proof.
  repeat split; intros [_ [H|H]]; discriminate H.
Qed.

(** C4, as the code has it: the emptiness test of line 105 is on the field
    as typed.  With a user identity and the three other fields filled, an
    empty identification number is refused with the validation notice and
    nothing is sent; any other one is sent with its non-digits stripped
    (["000.000.000-00"] as ["00000000000"]), and what is sent holds digits
    only. *)
Theorem submit_sends_stripped_identification (w : World) (uid : string) :
  uid ≠ "" → payerEmail (ui w) ≠ "" → payerFirstName (ui w) ≠ "" →
  payerLastName (ui w) ≠ "" →
  let w' := exec (handleSubmitUpdate uid) w in
  let number := payerIdentificationNumber (ui w) in
  (number = "" →
   sent w' = sent w ∧ inflight w' = inflight w ∧
   notices w' = notices w ++
     [{| message := Translated "wallet.enterIdentification"; kind := error |}]) ∧
  (number ≠ "" →
   sent w' = sent w ++
     [PLATFORM_UPDATE_REQUEST
        {| email := payerEmail (ui w); firstName := payerFirstName (ui w);
           lastName := payerLastName (ui w);
           identification_type := payerIdentificationType (ui w);
           identification_number := strip_non_digits number |}] ∧
   inflight w' = <[next_fetch w := SubmitAwaits]> (inflight w) ∧
   isUpdating (ui w') = true ∧
   notices w' = notices w) ∧
  all_digits (strip_non_digits number) = true ∧
  (all_digits number = true → strip_non_digits number = number) ∧
  strip_non_digits "000.000.000-00" = "00000000000".
Proof.
  intros Hu He Hf Hl.
  apply is_empty_false in Hu, He, Hf, Hl.
  open_world w. unfold_handlers. rewrite Hu, He, Hf, Hl. cbn.
  destruct (is_empty w_idnumber) eqn:Hn; cbn.
  - apply is_empty_true in Hn.
    repeat split; try reflexivity; try congruence;
      auto using strip_non_digits_all_digits, strip_non_digits_fixes_digits.
  - apply is_empty_false in Hn.
    repeat split; try reflexivity; try congruence;
      auto using strip_non_digits_all_digits, strip_non_digits_fixes_digits.
Qed.

Lemma submit_sends_stripped_identification_witness :
  sent (exec (handleSubmitUpdate "u1") (demo_world filled_form))
  = [PLATFORM_UPDATE_REQUEST
       {| email := "john.doe@example.com"; firstName := "John"; lastName := "Doe";
          identification_type := "CPF"; identification_number := "00000000000" |}].
Proof.
  refine (proj1 (proj1 (proj2
    (submit_sends_stripped_identification (demo_world filled_form) "u1" _ _ _ _)) _));
    discriminate.
Defined.

(** C4 as stated fails on an identification number without digits: ["abc"]
    is empty after normalization, yet the request goes out, with the empty
    string as the number, and no notice is shown. *)
Lemma submit_accepts_digitless_identification :
  strip_non_digits (payerIdentificationNumber (ui (demo_world form_with_letters))) = "" ∧
  sent (exec (handleSubmitUpdate "u1") (demo_world form_with_letters))
  = [PLATFORM_UPDATE_REQUEST
       {| email := "john.doe@example.com"; firstName := "John"; lastName := "Doe";
          identification_type := "CPF"; identification_number := "" |}] ∧
  notices (exec (handleSubmitUpdate "u1") (demo_world form_with_letters)) = [].
Proof. repeat split. Qed.

(** ** Submitting the form: the request fails *)

(** C5, as the code has it: the body is read (line 128) before the status is
    looked at (line 130).  For every outcome of the charge request that is
    not a success response, exactly one notice is shown: the generic failure
    notice when the request, the reading of the body or the reading of
    [data.error] throws; otherwise the informational notice for status 503;
    otherwise an error notice with [data.error] when it is truthy and the
    generic text when not.  In every case the call completes normally, the
    busy flag is off, no charge cell and no payer field changes, and no
    timer or request is added. *)
Theorem submit_failure_handling (w : World) (o : FetchOutcome) :
  non_success o →
  let w' := exec (handleSubmitUpdate_resume o) w in
  result (handleSubmitUpdate_resume o) w = Normal () ∧
  isUpdating (ui w') = false ∧
  showUpdateModal (ui w') = showUpdateModal (ui w) ∧
  same_charge (ui w) (ui w') ∧ same_payer (ui w) (ui w') ∧
  timers w' = timers w ∧ next_timer w' = next_timer w ∧
  sent w' = sent w ∧ inflight w' = inflight w ∧
  ∃ n, notices w' = notices w ++ [n] ∧
    (o = Rejected → n = generic_failure) ∧
    (∀ r, o = Responded r → body r = None → n = generic_failure) ∧
    (∀ r data, o = Responded r → body r = Some data → status r = 503 →
       n = {| message := Translated "wallet.pixNotConfigured"; kind := info |}) ∧
    (∀ r props, o = Responded r → body r = Some (JObj props) → status r ≠ 503 →
       n = {| message := or_else (own_prop "error" props) (Translated "header.updateFailed");
              kind := error |}) ∧
    (∀ r, o = Responded r → body r = Some JNull → status r ≠ 503 →
       n = generic_failure) ∧
    (∀ r data, o = Responded r → body r = Some data → status r ≠ 503 →
       get_prop data "error" = Normal Undefined → n = generic_failure).
Proof.
  intros Hns. unfold same_charge, same_payer. open_world w.
  destruct o as [|r]; [|cbn in Hns].
  - unfold_handlers. repeat split; try reflexivity.
    eexists; split; [reflexivity|]. repeat split; congruence.
  - unfold_handlers. destruct (body r) as [data|] eqn:Hbody; cbn.
    + destruct (status r =? 503) eqn:H503; cbn.
      * apply Z.eqb_eq in H503. repeat split; try reflexivity.
        eexists; split; [reflexivity|].
        repeat split; intros; simplify_eq; congruence.
      * apply Z.eqb_neq in H503. rewrite Hns. cbn.
        destruct (get_prop data "error") as [err|e] eqn:Herr; cbn;
          (repeat split; try reflexivity);
          (eexists; split; [reflexivity|]);
          repeat split; intros; simplify_eq; try congruence;
          try match goal with
              | H1 : get_prop ?d ?k = _, H2 : get_prop ?d ?k = _ |- _ =>
                  rewrite H1 in H2
              end;
          cbn [get_prop] in *; simplify_eq; reflexivity.
    + repeat split; try reflexivity.
      eexists; split; [reflexivity|].
      repeat split; intros; simplify_eq; congruence.
Qed.

Lemma submit_failure_handling_witness :
  result (handleSubmitUpdate_resume
            (Responded {| status := 400; body := Some (JObj [("error", JStr "CPF invalid")]) |}))
         (demo_world filled_form) = Normal ().
Proof.
  refine (proj1 (submit_failure_handling (demo_world filled_form)
    (Responded {| status := 400; body := Some (JObj [("error", JStr "CPF invalid")]) |}) _)).
  reflexivity.
Defined.

(** C5 as stated fails on a 503 whose body is not JSON: reading the body
    throws before the status is tested, and the notice is the generic error
    notice, not the informational one. *)
Lemma submit_503_unreadable_body :
  status {| status := 503; body := None |} = 503 ∧
  notices (exec (handleSubmitUpdate_resume (Responded {| status := 503; body := None |}))
             (demo_world filled_form))
  = [{| message := Translated "header.updateFailed"; kind := error |}] ∧
  error ≠ info.
Proof. repeat split. discriminate. Qed.

Example submit_503_json_body :
  notices (exec (handleSubmitUpdate_resume (Responded {| status := 503; body := Some (JObj []) |}))
             (demo_world filled_form))
  = [{| message := Translated "wallet.pixNotConfigured"; kind := info |}].
Proof. reflexivity. Qed.

Example submit_rejected_with_message :
  notices (exec (handleSubmitUpdate_resume
                   (Responded {| status := 400; body := Some (JObj [("error", JStr "CPF invalid")]) |}))
             (demo_world filled_form))
  = [{| message := Supplied (J (JStr "CPF invalid")); kind := error |}].
Proof. reflexivity. Qed.

(** ** The outcome of a status request *)

Lemma step_deliver (w : World) (fetch : nat) (k : Awaiting) (o : FetchOutcome) :
  inflight w !! fetch = Some k →
  step (Deliver fetch o) w = Some (exec (resume k o) (settle fetch w)).
Proof. intros H. cbn [step]. now rewrite H. Qed.

(** C2: a poll tick whose status request succeeds with [status] equal to
    ['failed'] clears its interval, sets the four charge cells to [null],
    hides the modal and shows one error notice: [data.errorMessage] when it
    is truthy (so ["X"] for [errorMessage: "X"]), the generic failure text
    when not.  The payer fields are left as they are. *)
Theorem poll_failed (w : World) (fetch interval : nat) (r : Response)
    (props : list (string * json)) :
  inflight w !! fetch = Some (PollAwaits interval) →
  ok r = true → body r = Some (JObj props) →
  own_prop "status" props = J (JStr "failed") →
  ∃ w', step (Deliver fetch (Responded r)) w = Some w' ∧
    timers w' = delete interval (timers w) ∧
    charge_cleared (ui w') ∧ showUpdateModal (ui w') = false ∧
    notices w' = notices w ++
      [{| message := or_else (own_prop "errorMessage" props) (Translated "header.updateFailed");
          kind := error |}] ∧
    (∀ X, X ≠ "" → own_prop "errorMessage" props = J (JStr X) →
       notices w' = notices w ++ [{| message := Supplied (J (JStr X)); kind := error |}]) ∧
    (truthy (own_prop "errorMessage" props) = false →
       notices w' = notices w ++ [generic_failure]) ∧
    same_payer (ui w) (ui w') ∧ isUpdating (ui w') = isUpdating (ui w) ∧
    sent w' = sent w ∧ console w' = console w.
Proof.
  intros Hin Hok Hbody Hst. eexists. split; [apply (step_deliver _ _ _ _ Hin)|].
  clear Hin. unfold charge_cleared, same_payer. open_world w.
  unfold_handlers. rewrite Hok, Hbody. cbn. rewrite Hst. cbn.
  repeat split; try reflexivity.
  - intros X HX Hmsg. rewrite Hmsg. unfold or_else.
    now rewrite (truthy_nonempty_string X HX).
  - intros Hfalsy. unfold or_else. now rewrite Hfalsy.
Qed.

Lemma poll_failed_witness :
  ∃ w', step (Deliver 1 (Responded {| status := 200;
                 body := Some (JObj [("status", JStr "failed"); ("errorMessage", JStr "X")]) |}))
             (exec (poll_tick 1 (J (JStr "tx-1"))) displaying_world) = Some w' ∧
        notices w' = notices displaying_world ++
                     [{| message := Supplied (J (JStr "X")); kind := error |}] ∧
        showUpdateModal (ui w') = false.
Proof.
  destruct (poll_failed (exec (poll_tick 1 (J (JStr "tx-1"))) displaying_world) 1 1
              {| status := 200;
                 body := Some (JObj [("status", JStr "failed"); ("errorMessage", JStr "X")]) |}
              [("status", JStr "failed"); ("errorMessage", JStr "X")]
              eq_refl eq_refl eq_refl eq_refl)
    as [w' [Hstep [_ [_ [Hshown [Hnotice _]]]]]].
  exists w'. split; [exact Hstep|]. split; [exact Hnotice|exact Hshown].
Defined.

(** C7: a poll tick whose status request fails, or comes back with a
    non-success status, a body that is not JSON, or a [status] that is
    neither ['completed'] nor ['failed'] (absent included), leaves the
    component state, the notices and the timer table as they were: the
    interval stays registered and the next tick will come. *)
Theorem poll_pending_unchanged (w : World) (fetch interval : nat) (o : FetchOutcome) :
  inflight w !! fetch = Some (PollAwaits interval) →
  pending_outcome o →
  ∃ w', step (Deliver fetch o) w = Some w' ∧
    ui w' = ui w ∧ notices w' = notices w ∧
    timers w' = timers w ∧ next_timer w' = next_timer w ∧
    sent w' = sent w ∧ now w' = now w ∧ clipboard w' = clipboard w ∧
    inflight w' = delete fetch (inflight w).
Proof.
  intros Hin Hpending. eexists. split; [apply (step_deliver _ _ _ _ Hin)|].
  clear Hin. open_world w. destruct o as [|r].
  - unfold_handlers. repeat split.
  - cbn in Hpending. unfold_handlers.
    destruct (ok r) eqn:Hok; [|repeat split].
    destruct Hpending as [?|Hbody]; [discriminate|].
    destruct (body r) as [data|]; cbn; [|repeat split].
    destruct (get_prop data "status") as [st|e]; cbn; [|repeat split].
    destruct (Hbody st eq_refl) as [Hc Hf]. rewrite Hc, Hf. repeat split.
Qed.

Lemma poll_pending_unchanged_witness :
  ∃ w', step (Deliver 1 (Responded {| status := 200;
                                      body := Some (JObj [("status", JStr "pending")]) |}))
             (exec (poll_tick 1 (J (JStr "tx-1"))) displaying_world) = Some w' ∧
        ui w' = ui displaying_world ∧ timers w' = timers displaying_world.
Proof.
  destruct (poll_pending_unchanged (exec (poll_tick 1 (J (JStr "tx-1"))) displaying_world) 1 1
              (Responded {| status := 200; body := Some (JObj [("status", JStr "pending")]) |})
              eq_refl)
    as [w' [Hstep [Hui [_ [Htimers _]]]]].
  - right. cbn. intros st Hst. injection Hst as <-. split; reflexivity.
  - exists w'. split; [exact Hstep|]. split; [exact Hui|exact Htimers].
Defined.

Example poll_malformed_body :
  pending_outcome (Responded {| status := 200; body := None |}) ∧
  pending_outcome (Responded {| status := 200; body := Some JNull |}) ∧
  pending_outcome (Responded {| status := 200; body := Some (JObj []) |}) ∧
  pending_outcome (Responded {| status := 502; body := None |}).
Proof.
  repeat split; cbn; auto; right; cbn; intros st Hst; try discriminate;
    injection Hst as <-; split; reflexivity.
Qed.

(** ** Every step has one of the ten effects *)

Lemma strict_eq_str_true (v : jsval) (lit : string) :
  strict_eq_str v lit = true → v = J (JStr lit).
Proof.
  destruct v as [|[]]; cbn; try discriminate.
  intros H. apply String.eqb_eq in H. now subst.
Qed.

Lemma get_prop_string (data : json) (k s : string) :
  get_prop data k = Normal (J (JStr s)) →
  ∃ props, data = JObj props ∧ own_prop k props = J (JStr s).
Proof.
  destruct data; cbn; intros H; try discriminate.
  injection H as H. eauto.
Qed.

Ltac split_ifs :=
  repeat (match goal with
          | |- context [if ?b then _ else _] => destruct b eqn:?
          | |- context [match ?x with Normal _ => _ | Thrown _ => _ end] => destruct x eqn:?
          end; cbn [fst snd get_prop]).

Lemma poll_tick_resume_effect (w : World) (fetch interval : nat) (o : FetchOutcome) :
  inflight w !! fetch = Some (PollAwaits interval) →
  effect (Deliver fetch o) w (exec (poll_tick_resume interval o) (settle fetch w)).
Proof.
  intros Hin. destruct o as [|r].
  - apply (eff_settle _ _ _ fetch); reflexivity.
  - destruct (ok r) eqn:Hok.
    2:{ apply (eff_settle _ _ _ fetch); open_world w; unfold_handlers;
        rewrite Hok; reflexivity. }
    destruct (body r) as [data|] eqn:Hbody.
    2:{ apply (eff_settle _ _ _ fetch); open_world w; unfold_handlers;
        rewrite Hok, Hbody; reflexivity. }
    destruct (get_prop data "status") as [st|ex] eqn:Hst.
    2:{ apply (eff_settle _ _ _ fetch); open_world w; unfold_handlers;
        rewrite Hok, Hbody; cbn; rewrite Hst; reflexivity. }
    destruct (strict_eq_str st "completed") eqn:Hc.
    { apply strict_eq_str_true in Hc. subst st.
      destruct (get_prop_string _ _ _ Hst) as [props [-> Hprops]].
      apply (eff_terminal _ _ _ fetch r interval);
        [reflexivity|exact Hin|split; [exact Hok|eauto]|..];
        open_world w; unfold_handlers; rewrite Hok, Hbody; cbn; rewrite Hprops;
        reflexivity. }
    destruct (strict_eq_str st "failed") eqn:Hf.
    { apply strict_eq_str_true in Hf. subst st.
      destruct (get_prop_string _ _ _ Hst) as [props [-> Hprops]].
      apply (eff_terminal _ _ _ fetch r interval);
        [reflexivity|exact Hin|split; [exact Hok|eauto]|..];
        open_world w; unfold_handlers; rewrite Hok, Hbody; cbn; rewrite Hprops;
        reflexivity. }
    apply (eff_settle _ _ _ fetch); open_world w; unfold_handlers;
      rewrite Hok, Hbody; cbn; rewrite Hst; cbn; rewrite Hc, Hf; reflexivity.
Qed.

Lemma handleSubmitUpdate_resume_effect (w : World) (fetch : nat) (o : FetchOutcome) :
  effect (Deliver fetch o) w (exec (handleSubmitUpdate_resume o) (settle fetch w)).
Proof.
  destruct o as [|r].
  - apply (eff_settle _ _ _ fetch); reflexivity.
  - destruct (body r) as [data|] eqn:Hbody.
    2:{ apply (eff_settle _ _ _ fetch); open_world w; unfold_handlers;
        rewrite Hbody; reflexivity. }
    destruct (status r =? 503) eqn:H503.
    { apply (eff_settle _ _ _ fetch); open_world w; unfold_handlers;
        rewrite Hbody; cbn; rewrite H503; reflexivity. }
    destruct (ok r) eqn:Hok.
    2:{ apply (eff_settle _ _ _ fetch); open_world w; unfold_handlers;
        rewrite Hbody; cbn; rewrite H503, Hok; cbn;
        destruct (get_prop data "error"); reflexivity. }
    destruct data;
      try (apply (eff_poll_started _ _ _ fetch Undefined); open_world w;
           unfold_handlers; rewrite Hbody; cbn; rewrite H503, Hok; reflexivity).
    + apply (eff_settle _ _ _ fetch); open_world w; unfold_handlers;
        rewrite Hbody; cbn; rewrite H503, Hok; reflexivity.
    + apply (eff_poll_started _ _ _ fetch (own_prop "transactionId" props));
        open_world w; unfold_handlers; rewrite Hbody; cbn; rewrite H503, Hok;
        reflexivity.
Qed.

Lemma step_effect (e : Event) (w w' : World) :
  wf w → step e w = Some w' → effect e w w'.
Proof.
  intros [Htimers _] Hstep. destruct e as [uid|uid| | |f v|id|fetch o|dt];
    cbn [step] in Hstep.
  - injection Hstep as <-. open_world w. unfold_handlers. split_ifs;
      apply eff_ui; reflexivity.
  - injection Hstep as <-. open_world w. unfold_handlers. split_ifs;
      first [apply eff_ui; reflexivity | apply eff_park; reflexivity].
  - injection Hstep as <-. open_world w. unfold_handlers. split_ifs;
      apply eff_ui; reflexivity.
  - injection Hstep as <-. open_world w. unfold_handlers.
    apply eff_copy; reflexivity.
  - injection Hstep as <-. destruct f; open_world w; unfold_handlers;
      apply eff_ui; reflexivity.
  - destruct (timers w !! id) as [tm|] eqn:Hid; [|discriminate].
    destruct (due tm <=? now w) eqn:Hdue; [|discriminate].
    injection Hstep as <-. apply Z.leb_le in Hdue.
    destruct (Htimers id tm Hid) as (_ & _ & Hshape).
    destruct tm as [cb rep dl du]. cbn [callback repeating delay due] in *.
    destruct cb as [txId|j|].
    + destruct Hshape as [-> ->].
      eapply (eff_tick _ _ _ id _ txId); [reflexivity|exact Hid|reflexivity|exact Hdue|..];
        open_world w; reflexivity.
    + destruct Hshape as (-> & -> & _).
      eapply (eff_ceiling _ _ _ id _ j); [reflexivity|exact Hid|reflexivity|exact Hdue|..];
        open_world w; reflexivity.
    + destruct Hshape as [-> ->].
      eapply (eff_copied_reset _ _ _ id); [reflexivity|exact Hid|reflexivity|..];
        open_world w; reflexivity.
  - destruct (inflight w !! fetch) as [[|interval]|] eqn:Hin; [| |discriminate];
      injection Hstep as <-.
    + apply handleSubmitUpdate_resume_effect.
    + now apply poll_tick_resume_effect.
  - destruct (bool_decide (may_advance dt w)) eqn:Hadv; [|discriminate].
    injection Hstep as <-. apply bool_decide_eq_true in Hadv.
    apply (eff_advance _ _ _ dt); [exact Hadv|reflexivity..].
Qed.

(** ** Well-formedness is an invariant *)

Lemma wf_initial : wf initial_world.
Proof. split; intros k x H; cbn in H; rewrite lookup_empty in H; discriminate. Qed.

Lemma timer_ok_transport (w w' : World) (id : nat) (tm : Timer) :
  (next_timer w ≤ next_timer w')%nat →
  (now w ≤ due tm → now w' ≤ due tm) →
  (∀ j, names_interval w j → names_interval w' j) →
  timer_ok w id tm → timer_ok w' id tm.
Proof.
  intros Hnext Hnow Hnames (Hid & Hdue & Hshape). repeat split.
  - lia.
  - auto.
  - destruct (callback tm); intuition.
Qed.

Lemma awaiting_ok_transport (w w' : World) (k : Awaiting) :
  (∀ j, names_interval w j → names_interval w' j) →
  awaiting_ok w k → awaiting_ok w' k.
Proof. intros Hnames. destruct k; cbn; auto. Qed.

Lemma names_interval_same (w w' : World) (j : nat) :
  timers w' = timers w → (next_timer w ≤ next_timer w')%nat →
  names_interval w j → names_interval w' j.
Proof. intros Ht Hn [Hj Hpoll]. split; [lia|]. now rewrite Ht. Qed.

Lemma names_interval_delete (w w' : World) (k j : nat) :
  timers w' = delete k (timers w) → next_timer w' = next_timer w →
  names_interval w j → names_interval w' j.
Proof.
  intros Ht Hn [Hj Hpoll]. split; [lia|]. rewrite Ht. intros tm Htm.
  apply lookup_delete_Some in Htm as [_ Htm]. auto.
Qed.

Lemma names_interval_fresh (w w' : World) (tm : Timer) (j : nat) :
  timers w' = <[next_timer w := tm]> (timers w) →
  (next_timer w ≤ next_timer w')%nat →
  names_interval w j → names_interval w' j.
Proof.
  intros Ht Hn [Hj Hpoll]. split; [lia|]. rewrite Ht. intros tm' Htm.
  rewrite lookup_insert_ne in Htm by lia. auto.
Qed.

(** The common part of the cases below: the old timers and parked requests
    stay well-formed when ids only grow, no old timer becomes overdue and
    interval ids keep naming intervals. *)
Lemma wf_transport (w w' : World) :
  (next_timer w ≤ next_timer w')%nat →
  (∀ id tm, timers w !! id = Some tm → now w ≤ due tm → now w' ≤ due tm) →
  (∀ j, names_interval w j → names_interval w' j) →
  wf w →
  map_Forall (timer_ok w') (timers w) ∧ map_Forall (λ _ k, awaiting_ok w' k) (inflight w).
Proof.
  intros Hnext Hnow Hnames [Ht Hi]. split.
  - intros id tm Hid. apply (timer_ok_transport w); eauto.
  - intros f k Hf. apply (awaiting_ok_transport w); eauto.
Qed.

Lemma wf_effect (e : Event) (w w' : World) :
  wf w → effect e w w' → wf w'.
Proof.
  intros Hwf Heff. pose proof Hwf as [Ht Hi].
  destruct Heff as [Htm Hn Hnow Hin | Htm Hn Hnow Hin | fetch Htm Hn Hnow Hin
                   | fetch r j _ Hj _ Htm Hn Hnow Hin
                   | fetch txId Htm Hn Hnow Hin | Htm Hn Hnow Hin
                   | id tm txId _ Hid Hcb Hdue Htm Hn Hnow Hin
                   | id tm j _ Hid Hcb Hdue Htm Hn Hnow Hin
                   | id tm _ Hid Hcb Htm Hn Hnow Hin
                   | dt [Hdt Hadv] Htm Hn Hnow Hin].
  - (* nothing *)
    destruct (wf_transport w w') as [Ht' Hi'];
      [lia | intros; lia | intros j; apply names_interval_same; auto; lia | exact Hwf |].
    split; [now rewrite Htm|now rewrite Hin].
  - (* a charge request is parked *)
    destruct (wf_transport w w') as [Ht' Hi'];
      [lia | intros; lia | intros j; apply names_interval_same; auto; lia | exact Hwf |].
    split; [now rewrite Htm|]. rewrite Hin. now apply map_Forall_insert_2.
  - (* a request is settled *)
    destruct (wf_transport w w') as [Ht' Hi'];
      [lia | intros; lia | intros j; apply names_interval_same; auto; lia | exact Hwf |].
    split; [now rewrite Htm|]. rewrite Hin. now apply map_Forall_delete.
  - (* a terminal status clears the interval *)
    destruct (wf_transport w w') as [Ht' Hi'];
      [lia | intros; lia | intros j'; apply (names_interval_delete w w' j); auto
      | exact Hwf |].
    split; [rewrite Htm|rewrite Hin]; now apply map_Forall_delete.
  - (* a poll starts *)
    assert (Hnames : ∀ j, names_interval w j → names_interval w' j).
    { intros j [Hj Hpoll]. split; [lia|]. rewrite Htm. intros tm' Htm'.
      rewrite !lookup_insert_ne in Htm' by lia. auto. }
    destruct (wf_transport w w') as [Ht' Hi'];
      [lia | intros; lia | exact Hnames | exact Hwf |].
    split; [rewrite Htm|rewrite Hin; now apply map_Forall_delete].
    apply map_Forall_insert_2; [|apply map_Forall_insert_2; [|exact Ht']].
    + repeat split; cbn; try lia.
      intros tm' Htm'. rewrite Htm in Htm'.
      rewrite lookup_insert_ne, lookup_insert_eq in Htm' by lia.
      injection Htm' as <-. now exists txId.
    + repeat split; cbn; lia.
  - (* a copy *)
    destruct (wf_transport w w') as [Ht' Hi'];
      [lia | intros; lia
      | intros j; eapply names_interval_fresh; [exact Htm|lia] | exact Hwf |].
    split; [rewrite Htm|now rewrite Hin].
    apply map_Forall_insert_2; [|exact Ht'].
    repeat split; cbn; lia.
  - (* a tick *)
    destruct (Ht id tm Hid) as (Hlt & Hle & Hshape). rewrite Hcb in Hshape.
    destruct Hshape as [Hrep Hdelay].
    assert (Hnames : ∀ j, names_interval w j → names_interval w' j).
    { intros j [Hj Hpoll]. split; [lia|]. rewrite Htm. intros tm' Htm'.
      destruct (decide (id = j)) as [->|Hne].
      - rewrite lookup_insert_eq in Htm'. injection Htm' as <-. now exists txId.
      - rewrite lookup_insert_ne in Htm' by done. auto. }
    destruct (wf_transport w w') as [Ht' Hi'];
      [lia | intros; lia | exact Hnames | exact Hwf |].
    split; [rewrite Htm|rewrite Hin].
    + apply map_Forall_insert_2; [|exact Ht'].
      repeat split; cbn; rewrite ?Hcb; cbn; try lia; auto.
    + apply map_Forall_insert_2; [|exact Hi'].
      cbn. apply Hnames. split; [lia|]. intros tm' Htm'.
      rewrite Hid in Htm'. injection Htm' as <-. now exists txId.
  - (* the ceiling *)
    assert (Hnames : ∀ j', names_interval w j' → names_interval w' j').
    { intros j' [Hj' Hpoll]. split; [lia|]. rewrite Htm. intros tm' Htm'.
      apply lookup_delete_Some in Htm' as [_ Htm'].
      apply lookup_delete_Some in Htm' as [_ Htm']. auto. }
    destruct (wf_transport w w') as [Ht' Hi'];
      [lia | intros; lia | exact Hnames | exact Hwf |].
    split; [rewrite Htm|now rewrite Hin].
    now apply map_Forall_delete, map_Forall_delete.
  - (* the copied flag is reset *)
    destruct (wf_transport w w') as [Ht' Hi'];
      [lia | intros; lia | intros j'; apply (names_interval_delete w w' id); auto
      | exact Hwf |].
    split; [rewrite Htm|now rewrite Hin]. now apply map_Forall_delete.
  - (* time passes *)
    destruct (wf_transport w w') as [Ht' Hi'];
      [lia | intros id tm Hid _; rewrite Hnow; apply (Hadv id tm Hid)
      | intros j'; apply names_interval_same; auto; lia | exact Hwf |].
    split; [now rewrite Htm|now rewrite Hin].
Qed.

Lemma wf_step (e : Event) (w w' : World) :
  wf w → step e w = Some w' → wf w'.
Proof. intros Hwf Hstep. eapply wf_effect; eauto using step_effect. Qed.

Lemma wf_run (evs : list Event) (w w' : World) :
  wf w → run evs w = Some w' → wf w'.
Proof.
  revert w. induction evs as [|e evs IH]; intros w Hwf Hrun; cbn in Hrun.
  - now injection Hrun as <-.
  - destruct (step e w) as [w1|] eqn:Hstep; [|discriminate].
    eauto using wf_step.
Qed.

Lemma reachable_wf (w : World) : reachable w → wf w.
Proof. intros [evs Hrun]. eapply wf_run; eauto using wf_initial. Qed.

Lemma reachable_step (e : Event) (w w' : World) :
  reachable w → step e w = Some w' → reachable w'.
Proof.
  intros [evs Hrun] Hstep. exists (evs ++ [e]).
  revert Hrun. generalize initial_world. induction evs as [|e0 evs IH];
    intros w0 Hrun; cbn in *.
  - injection Hrun as ->. now rewrite Hstep.
  - destruct (step e0 w0); [eauto|discriminate].
Qed.

(** ** A cleared timer id is never used again *)

Lemma cleared_effect (e : Event) (w w' : World) (i : nat) :
  (i < next_timer w)%nat → timers w !! i = None → effect e w w' →
  (i < next_timer w')%nat ∧ timers w' !! i = None.
Proof.
  intros Hi Hnone Heff.
  destruct Heff as [Htm Hn _ _ | Htm Hn _ _ | fetch Htm Hn _ _
                   | fetch r j _ _ _ Htm Hn _ _
                   | fetch txId Htm Hn _ _ | Htm Hn _ _
                   | id tm txId _ Hid _ _ Htm Hn _ _
                   | id tm j _ _ _ _ Htm Hn _ _
                   | id tm _ _ _ Htm Hn _ _
                   | dt _ Htm Hn _ _];
    (split; [lia|]); rewrite Htm; clear Htm;
    rewrite ?lookup_delete_None, ?lookup_insert_ne by (try lia; congruence); auto.
Qed.

Lemma cleared_run (evs : list Event) (w w' : World) (i : nat) :
  wf w → (i < next_timer w)%nat → timers w !! i = None →
  run evs w = Some w' → timers w' !! i = None.
Proof.
  revert w. induction evs as [|e evs IH]; intros w Hwf Hi Hnone Hrun; cbn in Hrun.
  - now injection Hrun as <-.
  - destruct (step e w) as [w1|] eqn:Hstep; [|discriminate].
    destruct (cleared_effect e w w1 i Hi Hnone (step_effect _ _ _ Hwf Hstep)).
    eauto using wf_step.
Qed.

(** ** The ceiling guards its interval *)

Lemma ceiling_not_poll (i : nat) (started : Z) : ¬ is_poll (ceiling i started).
Proof. intros [txId H]. discriminate H. Qed.

Lemma guarded_not_named (w : World) (i : nat) (started : Z) :
  poll_guarded i started w → names_interval w (S i) → timers w !! S i = None.
Proof.
  intros (_ & Hceil & _) [_ Hpoll].
  destruct (timers w !! S i) as [tm|] eqn:Htm; [|reflexivity].
  pose proof (Hpoll tm eq_refl) as Hp. rewrite (Hceil tm eq_refl) in Hp.
  now apply ceiling_not_poll in Hp.
Qed.

Lemma guarded_effect (e : Event) (w w' : World) (i : nat) (started : Z) :
  wf w → poll_guarded i started w → effect e w w' → poll_guarded i started w'.
Proof.
  intros [Ht Hi] Hg Heff. pose proof Hg as (Hnext & Hceil & Hpair).
  destruct Heff as [Htm Hn _ _ | Htm Hn _ _ | fetch Htm Hn _ _
                   | fetch r j _ Hj _ Htm Hn _ _
                   | fetch txId Htm Hn _ _ | Htm Hn _ _
                   | id tm txId _ Hid Hcb _ Htm Hn _ _
                   | id tm j _ Hid Hcb _ Htm Hn _ _
                   | id tm _ Hid Hcb Htm Hn _ _
                   | dt _ Htm Hn _ _];
    (split; [lia|]); rewrite Htm; clear Htm.
  1-3, 10: split; assumption.
  - (* a terminal status clears interval [j] *)
    pose proof (Hi fetch _ Hj) as Hnamed. cbn in Hnamed.
    split.
    + intros tm Htm. apply lookup_delete_Some in Htm as [_ Htm]. auto.
    + intros Hsome. apply lookup_delete_is_Some in Hsome as [Hne Hsome].
      apply Hpair in Hsome.
      assert (j ≠ S i).
      { intros ->. rewrite (guarded_not_named w i started Hg Hnamed) in Hsome.
        now destruct Hsome. }
      now rewrite lookup_delete_ne.
  - (* another poll starts, on fresh ids *)
    rewrite !lookup_insert_ne by lia. split; assumption.
  - (* a copy, on a fresh id *)
    rewrite !lookup_insert_ne by lia. split; assumption.
  - (* a tick of interval [id] *)
    assert (Hne : id ≠ S i).
    { intros ->. pose proof (Hceil tm Hid) as ->. discriminate Hcb. }
    rewrite lookup_insert_ne by exact Hne. split; [assumption|].
    intros Hsome. apply lookup_insert_is_Some in Hsome as [->|[_ Hsome]]; auto.
  - (* a ceiling fires and clears interval [j] *)
    destruct (Ht id tm Hid) as (_ & _ & Hshape). rewrite Hcb in Hshape.
    destruct Hshape as (_ & _ & Hnamed).
    split.
    + intros tm' Htm'. apply lookup_delete_Some in Htm' as [_ Htm'].
      apply lookup_delete_Some in Htm' as [_ Htm']. auto.
    + intros Hsome. apply lookup_delete_is_Some in Hsome as [Hji Hsome].
      apply lookup_delete_is_Some in Hsome as [Hidi Hsome].
      apply Hpair in Hsome. destruct Hsome as [tm' Htm'].
      pose proof (Hceil tm' Htm') as ->.
      assert (id ≠ S i).
      { intros ->. rewrite Hid in Htm'. injection Htm' as ->.
        cbn in Hcb. congruence. }
      assert (j ≠ S i).
      { intros ->. pose proof (guarded_not_named w i started Hg Hnamed). congruence. }
      rewrite !lookup_delete_ne by done. now rewrite Htm'.
  - (* the copied flag is reset *)
    assert (Hne : id ≠ S i).
    { intros ->. pose proof (Hceil tm Hid) as ->. discriminate Hcb. }
    split.
    + intros tm' Htm'. apply lookup_delete_Some in Htm' as [_ Htm']. auto.
    + intros Hsome. apply lookup_delete_is_Some in Hsome as [_ Hsome].
      rewrite lookup_delete_ne by exact Hne. auto.
Qed.

Lemma guarded_run (evs : list Event) (w w' : World) (i : nat) (started : Z) :
  wf w → poll_guarded i started w → run evs w = Some w' →
  wf w' ∧ poll_guarded i started w'.
Proof.
  revert w. induction evs as [|e evs IH]; intros w Hwf Hg Hrun; cbn in Hrun.
  - injection Hrun as <-. now split.
  - destruct (step e w) as [w1|] eqn:Hstep; [|discriminate].
    apply (IH w1); eauto using wf_step, guarded_effect, step_effect.
Qed.

Lemma pollUpdateStatus_timers (w : World) (txId : jsval) :
  timers (exec (pollUpdateStatus txId) w)
  = <[S (next_timer w) := ceiling (next_timer w) (now w)]>
      (<[next_timer w := poll_timer txId (now w)]> (timers w)) ∧
  next_timer (exec (pollUpdateStatus txId) w) = S (S (next_timer w)) ∧
  now (exec (pollUpdateStatus txId) w) = now w ∧
  inflight (exec (pollUpdateStatus txId) w) = inflight w ∧
  ui (exec (pollUpdateStatus txId) w) = ui w ∧
  notices (exec (pollUpdateStatus txId) w) = notices w ∧
  sent (exec (pollUpdateStatus txId) w) = sent w.
Proof. open_world w. repeat split. Qed.

Lemma pollUpdateStatus_wf (w : World) (txId : jsval) :
  wf w → wf (exec (pollUpdateStatus txId) w).
Proof.
  intros Hwf. destruct (pollUpdateStatus_timers w txId) as (Ht & Hn & Hnow & Hin & _).
  apply (wf_effect (Advance 0) w); [exact Hwf|].
  apply (eff_poll_started _ _ _ (fresh (dom (inflight w))) txId); auto.
  rewrite Hin. symmetry. apply delete_id, not_elem_of_dom, is_fresh.
Qed.

Lemma pollUpdateStatus_guarded (w : World) (txId : jsval) :
  wf w → poll_guarded (next_timer w) (now w) (exec (pollUpdateStatus txId) w).
Proof.
  intros [Ht _]. destruct (pollUpdateStatus_timers w txId) as (Htm & Hn & _).
  split; [lia|]. rewrite Htm. split.
  - intros tm. rewrite lookup_insert_eq. congruence.
  - intros _. rewrite lookup_insert_eq. eauto.
Qed.

(** While the ceiling of a guarded interval is pending, its due time has not
    passed. *)
Lemma guarded_before_cutoff (w : World) (i : nat) (started : Z) :
  wf w → poll_guarded i started w →
  is_Some (timers w !! i) ∨ is_Some (timers w !! S i) →
  timers w !! S i = Some (ceiling i started) ∧ now w ≤ started + 5 * 60 * 1000.
Proof.
  intros [Ht _] (_ & Hceil & Hpair) Hsome.
  assert (is_Some (timers w !! S i)) as [tm Htm] by (destruct Hsome; auto).
  pose proof (Hceil tm Htm) as ->. split; [exact Htm|].
  destruct (Ht _ _ Htm) as (_ & Hdue & _). exact Hdue.
Qed.

(** ** The poll ends on a terminal status *)

(** C1: a poll tick whose status request succeeds with [status] equal to
    ['completed'] clears its interval, sets the four charge cells to [null],
    empties the four text fields of the payer form (the identification type
    keeps its selection), hides the modal and shows one success notice.  The
    interval is gone for good: in no later world is it in the timer table,
    so it never ticks again. *)
Theorem poll_completed (w : World) (fetch interval : nat) (r : Response)
    (props : list (string * json)) :
  reachable w →
  inflight w !! fetch = Some (PollAwaits interval) →
  ok r = true → body r = Some (JObj props) →
  own_prop "status" props = J (JStr "completed") →
  ∃ w', step (Deliver fetch (Responded r)) w = Some w' ∧
    timers w' = delete interval (timers w) ∧
    charge_cleared (ui w') ∧ payer_cleared (ui w') ∧
    payerIdentificationType (ui w') = payerIdentificationType (ui w) ∧
    showUpdateModal (ui w') = false ∧
    notices w' = notices w ++
      [{| message := Translated "header.updateCompleted"; kind := success |}] ∧
    sent w' = sent w ∧
    (∀ evs w'', run evs w' = Some w'' →
       timers w'' !! interval = None ∧ step (Fire interval) w'' = None).
Proof.
  intros Hreach Hin Hok Hbody Hst.
  pose proof (reachable_wf w Hreach) as Hwf.
  pose proof (step_deliver w fetch _ (Responded r) Hin) as Hstep.
  eexists. split; [exact Hstep|].
  assert (Hnone : timers (exec (resume (PollAwaits interval) (Responded r)) (settle fetch w))
                  = delete interval (timers w)).
  { open_world w. unfold_handlers. rewrite Hok, Hbody. cbn. now rewrite Hst. }
  split; [exact Hnone|].
  repeat match goal with |- _ ∧ _ => split end;
    try (unfold charge_cleared, payer_cleared; clear Hstep Hnone Hin Hreach Hwf;
         open_world w; unfold_handlers; rewrite Hok, Hbody; cbn; rewrite Hst;
         repeat split; reflexivity).
  intros evs w'' Hrun.
  assert (Hgone : timers w'' !! interval = None).
  { eapply cleared_run; [eapply wf_step; eauto| |rewrite Hnone; apply lookup_delete_eq|exact Hrun].
    destruct Hwf as [_ Hi]. destruct (Hi fetch _ Hin) as [Hlt _].
    clear -Hlt Hok Hbody Hst. open_world w. unfold_handlers.
    rewrite Hok, Hbody. cbn. rewrite Hst. exact Hlt. }
  split; [exact Hgone|]. cbn [step]. now rewrite Hgone.
Qed.

Lemma polling_world_reachable : reachable polling_world.
Proof. exists polling_events. vm_compute. reflexivity. Defined.

Lemma poll_completed_witness :
  ∃ w', step (Deliver 1 (Responded completed_response)) polling_world = Some w' ∧
        charge_cleared (ui w') ∧ payer_cleared (ui w').
Proof.
  destruct (poll_completed polling_world 1 1 completed_response
              [("status", JStr "completed")]
              polling_world_reachable eq_refl eq_refl eq_refl eq_refl)
    as [w' [Hstep [_ [Hcharge [Hpayer _]]]]].
  exists w'. split; [exact Hstep|]. split; [exact Hcharge|exact Hpayer].
Defined.

(** ** Closing the modal while the code is on display *)

Lemma ceiling_eta (tm : Timer) (j : nat) :
  callback tm = ClearPoll j → repeating tm = false → delay tm = 5 * 60 * 1000 →
  tm = ceiling j (due tm - 5 * 60 * 1000).
Proof.
  destruct tm as [cb rep dl du]. cbn. intros -> -> ->. unfold ceiling.
  f_equal. lia.
Qed.

(** Only a terminal status or the ceiling takes a poll interval out of the
    timer table. *)
Lemma interval_stopped_only (e : Event) (w w' : World) (i : nat) (tm : Timer) :
  reachable w → timers w !! i = Some tm → is_poll tm →
  step e w = Some w' → timers w' !! i = None →
  stopped_by_terminal_status i e w ∨ stopped_by_ceiling i e w.
Proof.
  intros Hreach Hi [txId Hpoll] Hstep Hgone.
  pose proof (reachable_wf w Hreach) as Hwf. pose proof Hwf as [Ht _].
  destruct (step_effect e w w' Hwf Hstep)
    as [Htm _ _ _ | Htm _ _ _ | fetch Htm _ _ _
       | fetch r j He Hj Hterm Htm _ _ _
       | fetch tx Htm _ _ _ | Htm _ _ _
       | id tm' tx He Hid Hcb _ Htm _ _ _
       | id tm' j He Hid Hcb Hdue Htm _ _ _
       | id tm' He Hid Hcb Htm _ _ _
       | dt _ Htm _ _ _];
    rewrite Htm in Hgone; clear Htm; try congruence.
  - (* a terminal status *)
    apply lookup_delete_None in Hgone as [->|Hgone]; [|congruence].
    left. exists fetch, r. auto.
  - (* a poll starts: nothing is removed *)
    destruct (Ht i tm Hi) as (Hlt & _).
    rewrite !lookup_insert_ne in Hgone by lia. congruence.
  - (* a copy: nothing is removed *)
    destruct (Ht i tm Hi) as (Hlt & _).
    rewrite lookup_insert_ne in Hgone by lia. congruence.
  - (* a tick: the interval is put back *)
    destruct (decide (id = i)) as [->|Hne].
    + rewrite lookup_insert_eq in Hgone. discriminate.
    + rewrite lookup_insert_ne in Hgone by done. congruence.
  - (* a ceiling *)
    destruct (Ht id tm' Hid) as (_ & Hle & Hshape). rewrite Hcb in Hshape.
    destruct Hshape as (Hrep & Hdelay & _).
    apply lookup_delete_None in Hgone as [->|Hgone].
    + right. exists id, (due tm' - 5 * 60 * 1000). split; [exact He|].
      split; [|lia]. rewrite Hid. f_equal. now apply ceiling_eta.
    + apply lookup_delete_None in Hgone as [->|Hgone]; congruence.
  - (* the copied flag is reset *)
    apply lookup_delete_None in Hgone as [->|Hgone]; congruence.
Qed.

(** C3: with a code on display, the close button sets the four charge cells
    to [null] and hides the modal, and leaves the timer table as it is: the
    poll interval keeps ticking.  In every reachable world, the only steps
    that take a poll interval out of the table are a poll response with a
    terminal status and the firing of its five-minute ceiling. *)
Theorem close_keeps_polling (w : World) :
  truthy (updateQrCode (ui w)) = true →
  ∃ w', step ClickClose w = Some w' ∧
    charge_cleared (ui w') ∧ showUpdateModal (ui w') = false ∧
    timers w' = timers w ∧ next_timer w' = next_timer w ∧
    inflight w' = inflight w ∧ sent w' = sent w ∧ notices w' = notices w ∧
    same_payer (ui w) (ui w') ∧
    (∀ e w1 w2 i tm,
       reachable w1 → timers w1 !! i = Some tm → is_poll tm →
       step e w1 = Some w2 → timers w2 !! i = None →
       stopped_by_terminal_status i e w1 ∨ stopped_by_ceiling i e w1).
Proof.
  intros Hqr. eexists. split; [reflexivity|].
  unfold charge_cleared, same_payer.
  repeat match goal with |- _ ∧ _ => split end;
    try (open_world w; unfold_handlers; rewrite Hqr; reflexivity).
  intros e w1 w2 i tm. apply interval_stopped_only.
Qed.

Lemma close_keeps_polling_witness :
  ∃ w', step ClickClose displaying_world = Some w' ∧
        charge_cleared (ui w') ∧ timers w' = timers displaying_world.
Proof.
  destruct (close_keeps_polling displaying_world eq_refl)
    as [w' [Hstep [Hcleared [_ [Htimers _]]]]].
  exists w'. split; [exact Hstep|]. split; [exact Hcleared|exact Htimers].
Defined.

(** ** The five-minute ceiling *)

(** C8: [pollUpdateStatus], called at time [now w0], registers the interval
    under a fresh id [i] and, under [S i], a timeout due exactly five minutes
    later that clears [i].  Whatever happens afterwards (ticks, responses of
    any status, user actions), the timeout keeps that due time; while the
    interval is in the table the clock has not passed it, so the interval
    callback never runs, and no status request of this poll is sent, after
    it; beyond it both timers are gone.  When the timeout fires, the clock is
    exactly at the cutoff and the step only removes the two timers: no
    notice, no request, no change of component state; the interval never
    comes back. *)
Theorem poll_stops_at_ceiling (w0 : World) (txId : jsval) (evs : list Event) (w : World) :
  wf w0 →
  run evs (exec (pollUpdateStatus txId) w0) = Some w →
  let i := next_timer w0 in
  let cutoff := now w0 + 5 * 60 * 1000 in
  timers (exec (pollUpdateStatus txId) w0) !! i = Some (poll_timer txId (now w0)) ∧
  timers (exec (pollUpdateStatus txId) w0) !! S i = Some (ceiling i (now w0)) ∧
  (∀ tm, timers w !! S i = Some tm → tm = ceiling i (now w0)) ∧
  (is_Some (timers w !! i) →
     timers w !! S i = Some (ceiling i (now w0)) ∧ now w ≤ cutoff) ∧
  (cutoff < now w → timers w !! i = None ∧ timers w !! S i = None) ∧
  (∀ w', step (Fire i) w = Some w' → now w ≤ cutoff) ∧
  (∀ w', step (Fire (S i)) w = Some w' →
     now w = cutoff ∧
     timers w' = delete i (delete (S i) (timers w)) ∧
     ui w' = ui w ∧ notices w' = notices w ∧ sent w' = sent w ∧
     inflight w' = inflight w ∧ console w' = console w ∧
     ∀ evs' w'', run evs' w' = Some w'' → timers w'' !! i = None).
Proof.
  intros Hwf0 Hrun i cutoff.
  destruct (pollUpdateStatus_timers w0 txId) as (Htm & _).
  destruct (guarded_run evs _ w i (now w0) (pollUpdateStatus_wf w0 txId Hwf0)
              (pollUpdateStatus_guarded w0 txId Hwf0) Hrun) as [Hwf Hg].
  pose proof Hg as (Hnext & Hceil & Hpair).
  split. { rewrite Htm. rewrite lookup_insert_ne, lookup_insert_eq by (subst i; lia). done. }
  split. { rewrite Htm. now rewrite lookup_insert_eq. }
  split; [exact Hceil|].
  split. { intros Hsome. apply (guarded_before_cutoff w i (now w0) Hwf Hg). now left. }
  split.
  { intros Hlate. split.
    - destruct (timers w !! i) as [tm|] eqn:Hi; [|reflexivity].
      destruct (guarded_before_cutoff w i (now w0) Hwf Hg) as [_ Hle]; [left; eauto|].
      subst cutoff. lia.
    - destruct (timers w !! S i) as [tm|] eqn:Hi; [|reflexivity].
      destruct (guarded_before_cutoff w i (now w0) Hwf Hg) as [_ Hle]; [right; eauto|].
      subst cutoff. lia. }
  split.
  { intros w' Hstep. cbn [step] in Hstep.
    destruct (timers w !! i) as [tm|] eqn:Hi; [|discriminate].
    destruct (guarded_before_cutoff w i (now w0) Hwf Hg) as [_ Hle]; [left; eauto|].
    exact Hle. }
  intros w' Hstep. pose proof Hstep as Hfire. cbn [step] in Hfire.
  destruct (timers w !! S i) as [tm|] eqn:Hi; [|discriminate].
  pose proof (Hceil tm eq_refl) as ->. cbn [due ceiling] in Hfire.
  destruct (now w0 + 5 * 60 * 1000 <=? now w) eqn:Hdue; [|discriminate].
  apply Z.leb_le in Hdue. injection Hfire as Hw'.
  destruct (guarded_before_cutoff w i (now w0) Hwf Hg) as [_ Hle];
    [right; rewrite Hi; eauto|].
  assert (Hgone : timers w' = delete i (delete (S i) (timers w))).
  { rewrite <- Hw'. clear. open_world w. reflexivity. }
  split; [subst cutoff; lia|]. split; [exact Hgone|].
  repeat match goal with |- _ ∧ _ => split end;
    try (rewrite <- Hw'; clear; open_world w; reflexivity).
  intros evs' w'' Hrun'.
  eapply cleared_run; [eapply wf_step; eauto| | |exact Hrun'].
  - rewrite <- Hw'. clear -Hnext. open_world w. cbn in *. lia.
  - rewrite Hgone. apply lookup_delete_eq.
Qed.

Lemma poll_stops_at_ceiling_witness :
  timers (exec (pollUpdateStatus (J (JStr "tx-1"))) initial_world) !! 2%nat
  = Some (ceiling 1 0).
Proof.
  refine (proj1 (proj2 (poll_stops_at_ceiling initial_world (J (JStr "tx-1"))
                          (ticks 1 100 ++ [Fire 2%nat])
                          (default initial_world
                             (run (ticks 1 100 ++ [Fire 2%nat])
                                (exec (pollUpdateStatus (J (JStr "tx-1"))) initial_world)))
                          wf_initial _))).
  vm_compute. reflexivity.
Defined.

(** Where the poll starts: a success answer to the charge request stores the
    four cells and calls [pollUpdateStatus] with [data.transactionId], on a
    well-formed world with the clock and the next timer id of the world the
    answer came into. *)
Lemma charge_accepted_starts_poll (w : World) (fetch : nat) (r : Response)
    (props : list (string * json)) :
  reachable w →
  inflight w !! fetch = Some SubmitAwaits →
  ok r = true → body r = Some (JObj props) →
  ∃ w0, step (Deliver fetch (Responded r)) w
        = Some (exec (pollUpdateStatus (own_prop "transactionId" props)) w0) ∧
        wf w0 ∧ now w0 = now w ∧ next_timer w0 = next_timer w ∧
        timers w0 = timers w ∧
        updateQrCode (ui w0) = own_prop "qrCode" props ∧
        updateTransactionId (ui w0) = own_prop "transactionId" props ∧
        isUpdating (ui w0) = false ∧
        notices w0 = notices w ++
          [{| message := Translated "header.updateQrCodeGenerated"; kind := success |}].
Proof.
  intros Hreach Hin Hok Hbody.
  pose proof (reachable_wf w Hreach) as Hwf.
  assert (H503 : (status r =? 503) = false).
  { unfold ok in Hok. apply andb_true_iff in Hok as [_ Hle].
    apply Z.leb_le in Hle. apply Z.eqb_neq. lia. }
  exists (exec (setIsUpdating false ;;;
                setUpdateQrCode (own_prop "qrCode" props) ;;;
                setUpdateQrCodeBase64 (own_prop "qrCodeBase64" props) ;;;
                setUpdateTransactionId (own_prop "transactionId" props) ;;;
                setUpdateExpiresAt (own_prop "expiresAt" props) ;;;
                showNotification (Translated "header.updateQrCodeGenerated") success)
               (settle fetch w)).
  split.
  { rewrite (step_deliver w fetch _ _ Hin). f_equal. clear Hin Hreach Hwf.
    open_world w. unfold_handlers. rewrite Hbody. cbn. rewrite H503, Hok. reflexivity. }
  split.
  { apply (wf_effect (Deliver fetch Rejected) w); [exact Hwf|].
    apply (eff_settle _ _ _ fetch); clear; open_world w; reflexivity. }
  clear. open_world w. repeat split.
Qed.

(** ** The whole poll, run *)

(** A hundred unanswered ticks, then the ceiling: a hundred status requests
    have gone out, the clock is at five minutes, the timer table is empty,
    nothing was shown, and the interval cannot fire any more. *)
Example unanswered_poll_runs_out :
  (λ w, (now w, dom (timers w), length (sent w), notices w, ui w,
         step (Fire 1%nat) w))
    <$> run (ticks 1 100 ++ [Fire 2%nat])
            (exec (pollUpdateStatus (J (JStr "tx-1"))) initial_world)
  = Some (300000, ∅, 100%nat, [], initial_state, None).
Proof. vm_compute. reflexivity. Qed.

(** The ceiling cannot be skipped: with the timeout due, time does not
    advance before it has fired. *)
Example ceiling_cannot_be_skipped :
  (λ w, step (Advance 1) w)
    <$> run (ticks 1 100) (exec (pollUpdateStatus (J (JStr "tx-1"))) initial_world)
  = Some None.
Proof. vm_compute. reflexivity. Qed.

(** The ceiling stops the ticks, not the requests already sent: the answer to
    a status request sent before the cutoff is still handled when it comes
    in after it. *)
Example late_answer_is_still_handled :
  (λ w, (now w, notices w, showUpdateModal (ui w)))
    <$> run (ticks 1 100 ++ [Fire 2%nat; Advance 1000;
                             Deliver 99 (Responded completed_response)])
            (exec (pollUpdateStatus (J (JStr "tx-1"))) (demo_world filled_form))
  = Some (301000,
          [{| message := Translated "header.updateCompleted"; kind := success |}],
          false).
Proof. vm_compute. reflexivity. Qed.

(** Closing the modal does not end the poll: the next tick still goes out,
    and a later ['completed'] still shows its notice. *)
Example poll_survives_close :
  (λ w, (sent w, notices w))
    <$> run [ClickClose; Advance 3000; Fire 1%nat;
             Deliver 1 (Responded completed_response)] displaying_world
  = Some ([PLATFORM_UPDATE_REQUEST
             {| email := "john.doe@example.com"; firstName := "John"; lastName := "Doe";
                identification_type := "CPF"; identification_number := "00000000000" |};
           PLATFORM_UPDATE_STATUS (J (JStr "tx-1"))],
          [{| message := Translated "header.updateQrCodeGenerated"; kind := success |};
           {| message := Translated "header.updateCompleted"; kind := success |}]).
Proof. vm_compute. reflexivity. Qed.

(** * Further properties of the component *)

(** ** The charge request is accepted *)

Ltac case_split :=
  repeat (match goal with
          | |- context [if ?b then _ else _] => destruct b eqn:?
          end; cbn [fst snd]).

(** The branches of [handleSubmitUpdate_resume], one goal each, computed. *)
Ltac submit_outcome_cases o w :=
  let r := fresh "r" in
  let data := fresh "data" in
  let Hbody := fresh "Hbody" in
  let H503 := fresh "H503" in
  let Hok := fresh "Hok" in
  let Herr := fresh "Herr" in
  destruct o as [|r];
    [|destruct (body r) as [data|] eqn:Hbody;
      [destruct (status r =? 503) eqn:H503;
       [|destruct (ok r) eqn:Hok;
         [destruct data|destruct (get_prop data "error") eqn:Herr]]|]];
  open_world w; unfold_handlers;
  rewrite ?Hbody; cbn [fst snd];
  rewrite ?H503, ?Hok; cbn [fst snd negb get_prop];
  rewrite ?Herr; cbn [fst snd].

(** X1: a success answer to the charge request with an object body stores
    [qrCode], [qrCodeBase64], [transactionId] and [expiresAt] as the body has
    them ([undefined] for a missing key), shows the one success notice,
    switches the busy flag off, sends nothing, and registers exactly two
    timers: the poll interval for [data.transactionId], first due three
    seconds from now, and its five-minute ceiling.  It does so whether or not
    the body has a code: without one the modal stays on the form while the
    poll runs. *)
Theorem charge_accepted_stores_and_polls (w : World) (fetch : nat) (r : Response)
    (props : list (string * json)) :
  inflight w !! fetch = Some SubmitAwaits →
  ok r = true → body r = Some (JObj props) →
  ∃ w', step (Deliver fetch (Responded r)) w = Some w' ∧
    updateQrCode (ui w') = own_prop "qrCode" props ∧
    updateQrCodeBase64 (ui w') = own_prop "qrCodeBase64" props ∧
    updateTransactionId (ui w') = own_prop "transactionId" props ∧
    updateExpiresAt (ui w') = own_prop "expiresAt" props ∧
    isUpdating (ui w') = false ∧
    showUpdateModal (ui w') = showUpdateModal (ui w) ∧
    same_payer (ui w) (ui w') ∧
    notices w' = notices w ++
      [{| message := Translated "header.updateQrCodeGenerated"; kind := success |}] ∧
    sent w' = sent w ∧
    timers w' = <[S (next_timer w) := ceiling (next_timer w) (now w)]>
                  (<[next_timer w := poll_timer (own_prop "transactionId" props) (now w)]>
                     (timers w)) ∧
    next_timer w' = S (S (next_timer w)) ∧
    inflight w' = delete fetch (inflight w) ∧
    (showUpdateModal (ui w) = true → truthy (own_prop "qrCode" props) = false →
     view (ui w') = FormView).
Proof.
  intros Hin Hok Hbody.
  assert (H503 : (status r =? 503) = false).
  { unfold ok in Hok. apply andb_true_iff in Hok as [_ Hle].
    apply Z.leb_le in Hle. apply Z.eqb_neq. lia. }
  eexists. split; [apply (step_deliver _ _ _ _ Hin)|]. clear Hin.
  unfold same_payer, view. open_world w. unfold_handlers.
  rewrite Hbody. cbn. rewrite H503, Hok. cbn.
  repeat split; try reflexivity.
  intros -> ->. reflexivity.
Qed.

Lemma charge_accepted_stores_and_polls_witness :
  ∃ w', step (Deliver 0 (Responded {| status := 201; body := Some (JObj []) |}))
             (exec (handleSubmitUpdate "u1") (demo_world filled_form)) = Some w' ∧
        updateQrCode (ui w') = Undefined ∧ view (ui w') = FormView ∧
        next_timer w' = 3%nat.
Proof.
  destruct (charge_accepted_stores_and_polls
              (exec (handleSubmitUpdate "u1") (demo_world filled_form)) 0
              {| status := 201; body := Some (JObj []) |} [] eq_refl eq_refl eq_refl)
    as (w' & Hstep & Hqr & _ & _ & _ & _ & _ & _ & _ & _ & _ & Hnext & _ & Hview).
  exists w'. split; [exact Hstep|]. split; [exact Hqr|].
  split; [exact (Hview eq_refl eq_refl)|exact Hnext].
Defined.

(** X2: whatever comes back for the charge request (a thrown request, any
    status, any body), the rest of [handleSubmitUpdate] completes normally,
    leaves the busy flag off, shows exactly one notice, sends nothing, and
    touches neither the payer fields nor the visibility of the modal. *)
Theorem submit_always_settles (w : World) (o : FetchOutcome) :
  let w' := exec (handleSubmitUpdate_resume o) w in
  result (handleSubmitUpdate_resume o) w = Normal () ∧
  isUpdating (ui w') = false ∧
  (∃ n, notices w' = notices w ++ [n]) ∧
  sent w' = sent w ∧ inflight w' = inflight w ∧
  same_payer (ui w) (ui w') ∧
  showUpdateModal (ui w') = showUpdateModal (ui w) ∧
  copied (ui w') = copied (ui w) ∧ now w' = now w.
Proof.
  unfold same_payer. submit_outcome_cases o w;
    repeat split; try reflexivity; eexists; reflexivity.
Qed.

(** X3: the charge cells and the timer table change only on an accepted
    answer (success status, readable body that is not [null]).  On every
    other outcome the four cells, the timer table and the next timer id are
    as before and the notice shown is not a success notice; on an accepted
    one the notice is the success notice and two timers are added. *)
Theorem submit_stores_only_when_accepted (w : World) (o : FetchOutcome) :
  let w' := exec (handleSubmitUpdate_resume o) w in
  (accepted o →
   notices w' = notices w ++
     [{| message := Translated "header.updateQrCodeGenerated"; kind := success |}] ∧
   next_timer w' = S (S (next_timer w)) ∧
   is_Some (timers w' !! next_timer w) ∧ is_Some (timers w' !! S (next_timer w))) ∧
  ((accepted o → False) →
   same_charge (ui w) (ui w') ∧ timers w' = timers w ∧
   next_timer w' = next_timer w ∧
   ∃ n, notices w' = notices w ++ [n] ∧ kind n ≠ success).
Proof.
  cbv zeta. split.
  - intros (r & data & -> & Hok & Hbody & Hdata).
    assert (H503 : (status r =? 503) = false).
    { unfold ok in Hok. apply andb_true_iff in Hok as [_ Hle].
      apply Z.leb_le in Hle. apply Z.eqb_neq. lia. }
    open_world w. unfold_handlers. rewrite Hbody. cbn. rewrite H503, Hok. cbn.
    destruct data; try congruence; cbn;
      (split; [reflexivity|]); (split; [reflexivity|]);
      rewrite lookup_insert_ne, !lookup_insert_eq by lia; eauto.
  - intros Hno. unfold same_charge.
    destruct o as [|r].
    { open_world w. unfold_handlers. repeat split. eexists. split; [reflexivity|]. discriminate. }
    destruct (body r) as [data|] eqn:Hbody.
    2:{ open_world w. unfold_handlers. rewrite Hbody. repeat split.
        eexists. split; [reflexivity|]. discriminate. }
    destruct (status r =? 503) eqn:H503.
    { open_world w. unfold_handlers. rewrite Hbody. cbn. rewrite H503. repeat split.
      eexists. split; [reflexivity|]. discriminate. }
    destruct (ok r) eqn:Hok.
    2:{ open_world w. unfold_handlers. rewrite Hbody. cbn. rewrite H503, Hok. cbn.
        destruct (get_prop data "error"); cbn; repeat split;
          eexists; (split; [reflexivity|]); discriminate. }
    destruct data; try (exfalso; apply Hno; eexists _, _; repeat split; eauto; discriminate).
    open_world w. unfold_handlers. rewrite Hbody. cbn. rewrite H503, Hok. cbn.
    repeat split. eexists. split; [reflexivity|]. discriminate.
Qed.

(** ** The submit button and the handler behind it *)

(** X4: whenever the submit button is enabled (line 405) and a user identity
    is present, [handleSubmitUpdate] passes its own validation: it shows no
    notice, switches the busy flag on, and sends exactly one charge request,
    with the fields as typed and the identification number stripped to its
    digits. *)
Theorem enabled_submit_sends (w : World) (uid : string) :
  submit_disabled (ui w) = false → uid ≠ "" →
  let w' := exec (handleSubmitUpdate uid) w in
  let request :=
    PLATFORM_UPDATE_REQUEST
      {| email := payerEmail (ui w); firstName := payerFirstName (ui w);
         lastName := payerLastName (ui w);
         identification_type := payerIdentificationType (ui w);
         identification_number := strip_non_digits (payerIdentificationNumber (ui w)) |} in
  sent w' = sent w ++ [request] ∧ valid_request request ∧
  notices w' = notices w ∧ isUpdating (ui w') = true ∧
  inflight w' = <[next_fetch w := SubmitAwaits]> (inflight w) ∧
  timers w' = timers w ∧ same_payer (ui w) (ui w') ∧ same_charge (ui w) (ui w').
Proof.
  intros Hen Huid. unfold submit_disabled in Hen.
  repeat (apply orb_false_iff in Hen as [Hen ?]).
  apply is_empty_false in Huid. unfold same_payer, same_charge.
  open_world w. unfold_handlers.
  repeat match goal with H : is_empty _ = false |- _ => rewrite H; revert H end.
  intros; cbn. repeat split; try reflexivity;
    try (apply is_empty_false; assumption).
  apply strip_non_digits_all_digits.
Qed.

Lemma enabled_submit_sends_witness :
  sent (exec (handleSubmitUpdate "u1") (demo_world filled_form))
  = [PLATFORM_UPDATE_REQUEST
       {| email := "john.doe@example.com"; firstName := "John"; lastName := "Doe";
          identification_type := "CPF"; identification_number := "00000000000" |}].
Proof.
  refine (proj1 (enabled_submit_sends (demo_world filled_form) "u1" _ _)).
  - reflexivity.
  - discriminate.
Defined.

(** X5: [handleSubmitUpdate] does not look at the busy flag: what it sends,
    parks and shows is the same with the flag on or off.  Only the button's
    [disabled] attribute keeps a second request from going out. *)
Theorem submit_ignores_busy_flag (w : World) (uid : string) (b : bool) :
  sent (exec (handleSubmitUpdate uid) (with_busy b w))
  = sent (exec (handleSubmitUpdate uid) w) ∧
  inflight (exec (handleSubmitUpdate uid) (with_busy b w))
  = inflight (exec (handleSubmitUpdate uid) w) ∧
  notices (exec (handleSubmitUpdate uid) (with_busy b w))
  = notices (exec (handleSubmitUpdate uid) w).
Proof.
  unfold with_busy. open_world w. unfold_handlers. case_split; repeat split.
Qed.

(** ** What one step can add *)

(** The branches of [poll_tick_resume], one goal each, computed. *)
Ltac poll_outcome_cases o w :=
  let r := fresh "r" in
  let data := fresh "data" in
  let st := fresh "st" in
  let Hbody := fresh "Hbody" in
  let Hok := fresh "Hok" in
  let Hst := fresh "Hst" in
  let Hc := fresh "Hc" in
  let Hf := fresh "Hf" in
  let Hmsg := fresh "Hmsg" in
  destruct o as [|r];
    [|destruct (ok r) eqn:Hok;
      [destruct (body r) as [data|] eqn:Hbody;
       [destruct (get_prop data "status") as [st|] eqn:Hst;
        [destruct (strict_eq_str st "completed") eqn:Hc;
         [|destruct (strict_eq_str st "failed") eqn:Hf;
           [destruct (get_prop data "errorMessage") eqn:Hmsg|]]|]|]|]];
  open_world w; unfold_handlers;
  rewrite ?Hok; cbn [fst snd]; rewrite ?Hbody; cbn [fst snd];
  rewrite ?Hst; cbn [fst snd]; rewrite ?Hc, ?Hf; cbn [fst snd];
  rewrite ?Hmsg; cbn [fst snd].

Lemma step_notices (e : Event) (w w' : World) :
  step e w = Some w' →
  notices w' = notices w ∨ ∃ n, notices w' = notices w ++ [n].
Proof.
  intros Hstep. destruct e as [uid|uid| | |f v|id|fetch o|dt]; cbn [step] in Hstep.
  - injection Hstep as <-. open_world w. unfold_handlers. case_split; eauto.
  - injection Hstep as <-. open_world w. unfold_handlers. case_split; eauto.
  - injection Hstep as <-. open_world w. unfold_handlers. case_split; eauto.
  - injection Hstep as <-. open_world w. unfold_handlers. eauto.
  - injection Hstep as <-. destruct f; open_world w; unfold_handlers; eauto.
  - destruct (timers w !! id) as [tm|]; [|discriminate].
    destruct (due tm <=? now w); [|discriminate]. injection Hstep as <-.
    destruct tm as [[txId|j|] [] dl du]; open_world w; unfold_handlers; eauto.
  - destruct (inflight w !! fetch) as [[|interval]|]; [| |discriminate];
      injection Hstep as <-.
    + submit_outcome_cases o w; eauto.
    + poll_outcome_cases o w; eauto.
  - destruct (bool_decide (may_advance dt w)); [|discriminate].
    injection Hstep as <-. left. reflexivity.
Qed.

Lemma step_sent (e : Event) (w w' : World) :
  step e w = Some w' →
  sent w' = sent w ∨ ∃ r, sent w' = sent w ++ [r] ∧ valid_request r.
Proof.
  intros Hstep. destruct e as [uid|uid| | |f v|id|fetch o|dt]; cbn [step] in Hstep.
  - injection Hstep as <-. open_world w. unfold_handlers. case_split; eauto.
  - injection Hstep as <-. open_world w. unfold_handlers.
    destruct (is_empty uid); [eauto|].
    destruct (is_empty w_email) eqn:He; [eauto|].
    destruct (is_empty w_first) eqn:Hf; [eauto|].
    destruct (is_empty w_last) eqn:Hl; [eauto|].
    destruct (is_empty w_idnumber) eqn:Hn; [eauto|].
    right. eexists. split; [reflexivity|]. cbn.
    apply is_empty_false in He, Hf, Hl.
    auto using strip_non_digits_all_digits.
  - injection Hstep as <-. open_world w. unfold_handlers. case_split; eauto.
  - injection Hstep as <-. open_world w. unfold_handlers. eauto.
  - injection Hstep as <-. destruct f; open_world w; unfold_handlers; eauto.
  - destruct (timers w !! id) as [tm|]; [|discriminate].
    destruct (due tm <=? now w); [|discriminate]. injection Hstep as <-.
    destruct tm as [[txId|j|] [] dl du]; open_world w; unfold_handlers; eauto;
      right; eexists; (split; [reflexivity|exact I]).
  - destruct (inflight w !! fetch) as [[|interval]|]; [| |discriminate];
      injection Hstep as <-.
    + submit_outcome_cases o w; eauto.
    + poll_outcome_cases o w; eauto.
  - destruct (bool_decide (may_advance dt w)); [|discriminate].
    injection Hstep as <-. left. reflexivity.
Qed.

(** X6: one step of the event loop shows at most one notice and sends at
    most one request, and never takes back a notice or a request. *)
Theorem step_adds_at_most_one (e : Event) (w w' : World) :
  step e w = Some w' →
  (notices w' = notices w ∨ ∃ n, notices w' = notices w ++ [n]) ∧
  (sent w' = sent w ∨ ∃ r, sent w' = sent w ++ [r]).
Proof.
  intros Hstep. split; [eauto using step_notices|].
  destruct (step_sent e w w' Hstep) as [|[r [? _]]]; eauto.
Qed.

Lemma step_adds_at_most_one_witness :
  sent (exec (handleSubmitUpdate "u1") (demo_world filled_form)) = []
  ∨ ∃ r, sent (exec (handleSubmitUpdate "u1") (demo_world filled_form)) = [] ++ [r].
Proof.
  exact (proj2 (step_adds_at_most_one (ClickSubmit "u1") (demo_world filled_form) _ eq_refl)).
Defined.

(** X7: every charge request the component has ever sent passed the
    validation of lines 99-108: its email, first name and last name are not
    empty and its identification number consists of digits only, in every
    world the event loop can reach.  (The number itself may be empty: the
    test of line 105 is on the field as typed.) *)
Theorem sent_requests_are_valid (w : World) (r : Request) :
  reachable w → r ∈ sent w → valid_request r.
Proof.
  intros [evs Hrun] Hin.
  assert (Hall : Forall valid_request (sent w)).
  { revert Hrun. assert (H0 : Forall valid_request (sent initial_world)) by constructor.
    revert H0. generalize initial_world. clear Hin.
    induction evs as [|e evs IH]; intros w0 H0 Hrun; cbn in Hrun.
    - now injection Hrun as <-.
    - destruct (step e w0) as [w1|] eqn:Hstep; [|discriminate].
      apply (IH w1); [|exact Hrun].
      destruct (step_sent e w0 w1 Hstep) as [->|[r' [-> Hvalid]]]; [exact H0|].
      apply Forall_app. split; [exact H0|]. now constructor. }
  rewrite Forall_forall in Hall. auto.
Qed.

Lemma displaying_world_reachable : reachable displaying_world.
Proof. exists to_displaying. vm_compute. reflexivity. Defined.

Lemma sent_requests_are_valid_witness :
  valid_request
    (PLATFORM_UPDATE_REQUEST
       {| email := "john.doe@example.com"; firstName := "John"; lastName := "Doe";
          identification_type := "CPF"; identification_number := "00000000000" |}).
Proof.
  refine (sent_requests_are_valid displaying_world _ displaying_world_reachable _).
  apply list_elem_of_singleton. reflexivity.
Defined.

(** ** Timers over whole runs *)

Lemma effect_next_timer (e : Event) (w w' : World) :
  effect e w w' → (next_timer w ≤ next_timer w')%nat.
Proof.
  intros Heff.
  destruct Heff as [_ Hn _ _ | _ Hn _ _ | ? _ Hn _ _ | ? ? ? _ _ _ _ Hn _ _
                   | ? ? _ Hn _ _ | _ Hn _ _ | ? ? ? _ _ _ _ _ Hn _ _
                   | ? ? ? _ _ _ _ _ Hn _ _ | ? ? _ _ _ _ Hn _ _
                   | ? _ _ Hn _ _]; lia.
Qed.

Lemma kept_effect (e : Event) (w w' : World) (i : nat) (tm tm' : Timer) :
  wf w → effect e w w' →
  timers w !! i = Some tm → timers w' !! i = Some tm' → same_kind tm tm'.
Proof.
  intros [Ht _] Heff Hi Hi'. destruct (Ht i tm Hi) as (Hlt & _ & Hshape).
  destruct Heff as [Htm _ _ _ | Htm _ _ _ | fetch Htm _ _ _
                   | fetch r j _ _ _ Htm _ _ _
                   | fetch txId Htm _ _ _ | Htm _ _ _
                   | id tm0 txId _ Hid Hcb _ Htm _ _ _
                   | id tm0 j _ _ _ _ Htm _ _ _
                   | id tm0 _ _ _ Htm _ _ _
                   | dt _ Htm _ _ _];
    rewrite Htm in Hi'; clear Htm;
    repeat match goal with
           | H : delete _ _ !! _ = Some _ |- _ => apply lookup_delete_Some in H as [_ H]
           end;
    rewrite ?lookup_insert_ne in Hi' by lia;
    try (rewrite Hi in Hi'; injection Hi' as <-; repeat split; fail).
  destruct (decide (id = i)) as [->|Hne].
  - rewrite lookup_insert_eq in Hi'. injection Hi' as <-.
    rewrite Hi in Hid. injection Hid as <-.
    rewrite Hcb in Hshape. destruct Hshape as [Hrep _].
    repeat split; cbn; congruence.
  - rewrite lookup_insert_ne in Hi' by done.
    rewrite Hi in Hi'. injection Hi' as <-. repeat split.
Qed.

Lemma kept_run (evs : list Event) (w w' : World) (i : nat) (tm tm' : Timer) :
  wf w → run evs w = Some w' →
  timers w !! i = Some tm → timers w' !! i = Some tm' → same_kind tm tm'.
Proof.
  revert w tm. induction evs as [|e evs IH]; intros w tm Hwf Hrun Hi Hi'; cbn in Hrun.
  - injection Hrun as <-. rewrite Hi in Hi'. injection Hi' as <-. repeat split.
  - destruct (step e w) as [w1|] eqn:Hstep; [|discriminate].
    pose proof (step_effect e w w1 Hwf Hstep) as Heff.
    pose proof (wf_step e w w1 Hwf Hstep) as Hwf1.
    destruct (timers w1 !! i) as [tm1|] eqn:Hi1.
    + destruct (kept_effect e w w1 i tm tm1 Hwf Heff Hi Hi1) as (Hc & Hr & Hd).
      destruct (IH w1 tm1 Hwf1 Hrun Hi1 Hi') as (Hc' & Hr' & Hd').
      repeat split; congruence.
    + exfalso. destruct Hwf as [Ht _]. destruct (Ht i tm Hi) as (Hlt & _).
      pose proof (effect_next_timer e w w1 Heff) as Hmono.
      rewrite (cleared_run evs w1 w' i Hwf1 ltac:(lia) Hi1 Hrun) in Hi'.
      discriminate.
Qed.



(** X9: a poll keeps asking for the transaction it was started with.  Over
    any run after [pollUpdateStatus txId], whatever the component state has
    become (modal closed, cells cleared, another charge on display), a tick
    of that interval sends exactly one status request, for [txId], parks its
    continuation, and changes neither the component state nor the notices. *)
Theorem poll_asks_for_its_transaction (w0 : World) (txId : jsval) (evs : list Event)
    (w w' : World) :
  wf w0 →
  run evs (exec (pollUpdateStatus txId) w0) = Some w →
  step (Fire (next_timer w0)) w = Some w' →
  sent w' = sent w ++ [PLATFORM_UPDATE_STATUS txId] ∧
  inflight w' = <[next_fetch w := PollAwaits (next_timer w0)]> (inflight w) ∧
  ui w' = ui w ∧ notices w' = notices w ∧ now w' = now w ∧
  next_timer w' = next_timer w.
Proof.
  intros Hwf0 Hrun Hstep.
  destruct (pollUpdateStatus_timers w0 txId) as (Htm & _).
  assert (Hstart : timers (exec (pollUpdateStatus txId) w0) !! next_timer w0
                   = Some (poll_timer txId (now w0))).
  { rewrite Htm. now rewrite lookup_insert_ne, lookup_insert_eq by lia. }
  cbn [step] in Hstep.
  destruct (timers w !! next_timer w0) as [tm|] eqn:Hi; [|discriminate].
  destruct (due tm <=? now w); [|discriminate]. injection Hstep as <-.
  destruct (kept_run evs _ w (next_timer w0) _ tm (pollUpdateStatus_wf w0 txId Hwf0)
              Hrun Hstart Hi) as (Hcb & Hrep & _).
  destruct tm as [cb rep dl du]. cbn in Hcb, Hrep. subst cb rep.
  clear. open_world w. repeat split.
Qed.

Lemma poll_asks_for_its_transaction_witness :
  sent (default initial_world
          (run [ClickClose; Advance 3000; Fire 1%nat]
               (exec (pollUpdateStatus (J (JStr "tx-1"))) (demo_world filled_form))))
  = [PLATFORM_UPDATE_STATUS (J (JStr "tx-1"))].
Proof.
  refine (proj1 (poll_asks_for_its_transaction (demo_world filled_form) (J (JStr "tx-1"))
                   [ClickClose; Advance 3000]
                   (default initial_world
                      (run [ClickClose; Advance 3000]
                           (exec (pollUpdateStatus (J (JStr "tx-1"))) (demo_world filled_form))))
                   _ _ _ _)).
  - split; intros k x H; cbn in H; rewrite lookup_empty in H; discriminate.
  - vm_compute. reflexivity.
  - vm_compute. reflexivity.
Defined.

(** ** No poll interval is ever left unguarded *)

Lemma poll_origin (e : Event) (w w' : World) (i : nat) (tm' : Timer) :
  effect e w w' → timers w' !! i = Some tm' → is_poll tm' →
  (∃ tm, timers w !! i = Some tm ∧ is_poll tm) ∨
  (i = next_timer w ∧
   timers w' !! S i = Some (ceiling i (now w)) ∧ (S i < next_timer w')%nat).
Proof.
  intros Heff Hi' Hpoll.
  destruct Heff as [Htm _ _ _ | Htm _ _ _ | fetch Htm _ _ _
                   | fetch r j _ _ _ Htm _ _ _
                   | fetch txId Htm Hn _ _ | Htm _ _ _
                   | id tm0 txId _ Hid Hcb _ Htm _ _ _
                   | id tm0 j _ _ _ _ Htm _ _ _
                   | id tm0 _ _ _ Htm _ _ _
                   | dt _ Htm _ _ _];
    rewrite Htm in Hi';
    repeat match goal with
           | H : delete _ _ !! _ = Some _ |- _ => apply lookup_delete_Some in H as [_ H]
           end;
    eauto.
  - (* a poll starts *)
    destruct (decide (i = S (next_timer w))) as [->|Hne1].
    { rewrite lookup_insert_eq in Hi'. injection Hi' as <-.
      now apply ceiling_not_poll in Hpoll. }
    rewrite lookup_insert_ne in Hi' by done.
    destruct (decide (i = next_timer w)) as [->|Hne2].
    + right. split; [reflexivity|]. rewrite Htm, lookup_insert_eq. split; [reflexivity|lia].
    + rewrite lookup_insert_ne in Hi' by done. eauto.
  - (* a copy *)
    destruct (decide (i = next_timer w)) as [->|Hne].
    + rewrite lookup_insert_eq in Hi'. injection Hi' as <-.
      destruct Hpoll as [? Hp]. discriminate Hp.
    + rewrite lookup_insert_ne in Hi' by done. eauto.
  - (* a tick *)
    destruct (decide (id = i)) as [->|Hne].
    + left. exists tm0. split; [exact Hid|]. now exists txId.
    + rewrite lookup_insert_ne in Hi' by done. eauto.
Qed.

Lemma all_guarded_step (e : Event) (w w' : World) :
  wf w → all_guarded w → step e w = Some w' → all_guarded w'.
Proof.
  intros Hwf Hall Hstep i tm' Hi' Hpoll.
  pose proof (step_effect e w w' Hwf Hstep) as Heff.
  destruct (poll_origin e w w' i tm' Heff Hi' Hpoll)
    as [(tm & Hi & Hp)|(-> & Hceil & Hlt)].
  - destruct (Hall i tm Hi Hp) as [started Hg].
    exists started. eauto using guarded_effect.
  - exists (now w). split; [exact Hlt|]. split.
    + intros tm0. rewrite Hceil. congruence.
    + intros _. rewrite Hceil. eauto.
Qed.

Lemma all_guarded_reachable (w : World) : reachable w → all_guarded w.
Proof.
  intros [evs Hrun].
  assert (H0 : all_guarded initial_world).
  { intros i tm Hi. cbn in Hi. rewrite lookup_empty in Hi. discriminate. }
  pose proof wf_initial as Hwf0. revert H0 Hwf0 Hrun. generalize initial_world.
  induction evs as [|e evs IH]; intros w0 H0 Hwf0 Hrun; cbn in Hrun.
  - now injection Hrun as <-.
  - destruct (step e w0) as [w1|] eqn:Hstep; [|discriminate].
    eauto using all_guarded_step, wf_step.
Qed.

(** X10: no poll interval is ever left without its ceiling.  In every world
    the event loop can reach, each poll interval in the timer table has,
    under the next id, its five-minute timeout still pending, and the clock
    has not passed that timeout's due time: however many charges are started
    and however the modal is used, no interval can tick for more than five
    minutes. *)
Theorem poll_intervals_are_guarded (w : World) (i : nat) (tm : Timer) :
  reachable w → timers w !! i = Some tm → is_poll tm →
  ∃ started,
    timers w !! S i = Some (ceiling i started) ∧
    now w ≤ started + 5 * 60 * 1000 ∧
    repeating tm = true ∧ delay tm = 3000.
Proof.
  intros Hreach Hi Hpoll. pose proof (reachable_wf w Hreach) as Hwf.
  destruct (all_guarded_reachable w Hreach i tm Hi Hpoll) as [started Hg].
  exists started.
  destruct (guarded_before_cutoff w i started Hwf Hg) as [Hceil Hle];
    [left; eauto|].
  split; [exact Hceil|]. split; [exact Hle|].
  destruct Hwf as [Ht _]. destruct (Ht i tm Hi) as (_ & _ & Hshape).
  destruct Hpoll as [txId Hcb]. rewrite Hcb in Hshape. exact Hshape.
Qed.

Lemma poll_intervals_are_guarded_witness :
  ∃ started, timers polling_world !! 2%nat = Some (ceiling 1 started) ∧
             now polling_world ≤ started + 5 * 60 * 1000.
Proof.
  destruct (poll_intervals_are_guarded polling_world 1
              {| callback := PollTick (J (JStr "tx-1")); repeating := true;
                 delay := 3000; due := 6000 |}
              polling_world_reachable eq_refl
              (ex_intro _ (J (JStr "tx-1")) eq_refl))
    as (started & Hceil & Hle & _).
  exists started. split; [exact Hceil|exact Hle].
Defined.

(** ** The busy flag *)

Lemma step_busy_effect (e : Event) (w w' : World) :
  step e w = Some w' → busy_effect e w w'.
Proof.
  intros Hstep. destruct e as [uid|uid| | |f v|id|fetch o|dt]; cbn [step] in Hstep.
  - injection Hstep as <-. open_world w. unfold_handlers. case_split;
      apply be_same; reflexivity.
  - injection Hstep as <-. open_world w. unfold_handlers. case_split;
      first [apply be_same; reflexivity
            |apply (be_submit _ _ _ uid); reflexivity].
  - injection Hstep as <-. open_world w. unfold_handlers. case_split;
      apply be_same; reflexivity.
  - injection Hstep as <-. open_world w. unfold_handlers. apply be_same; reflexivity.
  - injection Hstep as <-. destruct f; open_world w; unfold_handlers;
      apply be_same; reflexivity.
  - destruct (timers w !! id) as [tm|]; [|discriminate].
    destruct (due tm <=? now w); [|discriminate]. injection Hstep as <-.
    destruct tm as [[txId|j|] [] dl du]; open_world w; unfold_handlers;
      first [apply be_same; reflexivity | apply (be_tick _ _ _ id); reflexivity].
  - destruct (inflight w !! fetch) as [[|interval]|] eqn:Hin; [| |discriminate];
      injection Hstep as <-.
    + apply (be_charge_settled _ _ _ fetch); [exact Hin|..]; clear Hin;
        submit_outcome_cases o w; reflexivity.
    + apply (be_poll_settled _ _ _ fetch interval); [exact Hin|..]; clear Hin;
        poll_outcome_cases o w; reflexivity.
  - destruct (bool_decide (may_advance dt w)); [|discriminate].
    injection Hstep as <-. apply be_same; reflexivity.
Qed.

Lemma fresh_fetches_effect (e : Event) (w w' : World) :
  fresh_fetches w → busy_effect e w w' → fresh_fetches w'.
Proof.
  intros Hfresh Heff f k.
  destruct Heff as [_ Hin Hn | uid _ _ Hin Hn | id _ Hin Hn
                   | fetch _ _ Hin Hn | fetch j _ _ Hin Hn];
    rewrite Hin, Hn; clear Hin Hn; intros Hf.
  - eauto.
  - apply lookup_insert_Some in Hf as [[<- _]|[_ Hf]]; [lia|]. apply Hfresh in Hf. lia.
  - apply lookup_insert_Some in Hf as [[<- _]|[_ Hf]]; [lia|]. apply Hfresh in Hf. lia.
  - apply lookup_delete_Some in Hf as [_ Hf]. eauto.
  - apply lookup_delete_Some in Hf as [_ Hf]. eauto.
Qed.

Lemma busy_has_charge_effect (e : Event) (w w' : World) :
  fresh_fetches w →
  (isUpdating (ui w) = true → charge_in_flight w) →
  busy_effect e w w' →
  isUpdating (ui w') = true → charge_in_flight w'.
Proof.
  intros Hfresh Hinv Heff Hbusy.
  destruct Heff as [Hb Hin _ | uid _ _ Hin _ | id Hb Hin _
                   | fetch _ Hb _ _ | fetch j Hj Hb Hin _].
  - rewrite Hb in Hbusy. destruct (Hinv Hbusy) as [f Hf]. exists f. now rewrite Hin.
  - exists (next_fetch w). rewrite Hin. apply lookup_insert_eq.
  - rewrite Hb in Hbusy. destruct (Hinv Hbusy) as [f Hf]. exists f. rewrite Hin.
    rewrite lookup_insert_ne; [exact Hf|]. apply Hfresh in Hf. lia.
  - congruence.
  - rewrite Hb in Hbusy. destruct (Hinv Hbusy) as [f Hf]. exists f. rewrite Hin.
    rewrite lookup_delete_ne; [exact Hf|]. congruence.
Qed.

Lemma busy_has_charge_run (evs : list Event) (w w' : World) :
  fresh_fetches w → (isUpdating (ui w) = true → charge_in_flight w) →
  run evs w = Some w' →
  fresh_fetches w' ∧ (isUpdating (ui w') = true → charge_in_flight w').
Proof.
  revert w. induction evs as [|e evs IH]; intros w Hfresh Hinv Hrun; cbn in Hrun.
  - injection Hrun as <-. now split.
  - destruct (step e w) as [w1|] eqn:Hstep; [|discriminate].
    pose proof (step_busy_effect e w w1 Hstep) as Heff.
    apply (IH w1); eauto using fresh_fetches_effect, busy_has_charge_effect.
Qed.

(** X11: the busy flag is never on without a charge request in flight.  In
    every world the event loop can reach, [isUpdating] being true means that
    some call of [handleSubmitUpdate] is parked at its [await]; since every
    outcome of that request switches the flag off (X2), the submit button
    cannot stay disabled once the request has settled. *)
Theorem busy_means_charge_in_flight (w : World) :
  reachable w → isUpdating (ui w) = true → charge_in_flight w.
Proof.
  intros [evs Hrun].
  apply (busy_has_charge_run evs initial_world w); [| |exact Hrun].
  - intros f k H. cbn in H. rewrite lookup_empty in H. discriminate.
  - discriminate.
Qed.

Lemma busy_means_charge_in_flight_witness : charge_in_flight charging_world.
Proof.
  refine (busy_means_charge_in_flight charging_world _ _).
  - exists to_charging. vm_compute. reflexivity.
  - vm_compute. reflexivity.
Defined.

(** ** What the render lets through *)

Lemma ui_step_inv (e : Event) (w w' : World) :
  ui_step e w = Some w' → offered e w = true ∧ step e w = Some w'.
Proof. unfold ui_step. destruct (offered e w); [auto|discriminate]. Qed.

Lemma single_flight_step (e : Event) (w w' : World) :
  single_flight w → ui_step e w = Some w' → single_flight w'.
Proof.
  intros (Hfresh & Hiff & Huniq) Hui.
  destruct (ui_step_inv e w w' Hui) as [Hoff Hstep].
  pose proof (step_busy_effect e w w' Hstep) as Heff.
  split; [eauto using fresh_fetches_effect|].
  destruct Heff as [Hb Hin _ | uid -> Hb Hin _ | id Hb Hin _
                   | fetch Hf Hb Hin _ | fetch j Hj Hb Hin _].
  - unfold charge_in_flight. rewrite Hb, Hin. split; assumption.
  - (* the submit button was enabled, so nothing was in flight *)
    assert (Hidle : isUpdating (ui w) = false).
    { cbn in Hoff. destruct (view (ui w)); try discriminate.
      unfold submit_disabled in Hoff.
      destruct (isUpdating (ui w)); [discriminate|reflexivity]. }
    assert (Hnone : ∀ f, inflight w !! f = Some SubmitAwaits → False).
    { intros f Hf. assert (charge_in_flight w) as Hc by (exists f; exact Hf).
      apply Hiff in Hc. congruence. }
    split.
    + split; [|auto]. intros _. exists (next_fetch w). rewrite Hin.
      apply lookup_insert_eq.
    + intros f g. rewrite Hin. intros Hf Hg.
      apply lookup_insert_Some in Hf as [[<- _]|[_ Hf]]; [|now apply Hnone in Hf].
      apply lookup_insert_Some in Hg as [[<- _]|[_ Hg]]; [|now apply Hnone in Hg].
      reflexivity.
  - (* a poll tick parks a status request *)
    split.
    + rewrite Hb. split.
      * intros Hbusy. apply Hiff in Hbusy as [f Hf]. exists f. rewrite Hin.
        rewrite lookup_insert_ne; [exact Hf|]. apply Hfresh in Hf. lia.
      * intros [f Hf]. rewrite Hin in Hf.
        apply lookup_insert_Some in Hf as [[_ ?]|[_ Hf]]; [discriminate|].
        apply Hiff. now exists f.
    + intros f g. rewrite Hin. intros Hf Hg.
      apply lookup_insert_Some in Hf as [[_ ?]|[_ Hf]]; [discriminate|].
      apply lookup_insert_Some in Hg as [[_ ?]|[_ Hg]]; [discriminate|].
      eauto.
  - (* the charge request settles *)
    split.
    + rewrite Hb. split; [discriminate|]. intros [g Hg]. rewrite Hin in Hg.
      apply lookup_delete_Some in Hg as [Hne Hg]. pose proof (Huniq _ _ Hf Hg). congruence.
    + intros f g. rewrite Hin. intros Hf' Hg'.
      apply lookup_delete_Some in Hf' as [_ Hf'].
      apply lookup_delete_Some in Hg' as [_ Hg']. eauto.
  - (* a status request settles *)
    split.
    + rewrite Hb. split.
      * intros Hbusy. apply Hiff in Hbusy as [f Hf]. exists f. rewrite Hin.
        rewrite lookup_delete_ne; [exact Hf|]. congruence.
      * intros [f Hf]. rewrite Hin in Hf. apply lookup_delete_Some in Hf as [_ Hf].
        apply Hiff. now exists f.
    + intros f g. rewrite Hin. intros Hf' Hg'.
      apply lookup_delete_Some in Hf' as [_ Hf'].
      apply lookup_delete_Some in Hg' as [_ Hg']. eauto.
Qed.

Lemma single_flight_initial : single_flight initial_world.
Proof.
  split; [|split].
  - intros f k H. cbn in H. rewrite lookup_empty in H. discriminate.
  - split; [discriminate|]. intros [f H]. cbn in H. rewrite lookup_empty in H. discriminate.
  - intros f g H. cbn in H. rewrite lookup_empty in H. discriminate.
Qed.

(** X12: as long as only what the render offers is clicked, at most one
    charge request is in flight at any time, and the busy flag is on exactly
    while one is: the [disabled] attribute of the submit button (line 405),
    not the handler, is what makes submission single-flight. *)
Theorem ui_single_charge_in_flight (w : World) :
  ui_reachable w →
  (isUpdating (ui w) = true ↔ charge_in_flight w) ∧
  (∀ f g, inflight w !! f = Some SubmitAwaits →
          inflight w !! g = Some SubmitAwaits → f = g).
Proof.
  intros [evs Hrun].
  assert (Hsingle : single_flight w).
  { pose proof single_flight_initial as H0. revert H0 Hrun. generalize initial_world.
    induction evs as [|e evs IH]; intros w0 H0 Hrun; cbn in Hrun.
    - now injection Hrun as <-.
    - destruct (ui_step e w0) as [w1|] eqn:Hstep; [|discriminate].
      eauto using single_flight_step. }
  destruct Hsingle as (_ & Hiff & Huniq). split; assumption.
Qed.

Lemma ui_single_charge_in_flight_witness :
  isUpdating (ui (default initial_world (ui_run to_displaying initial_world))) = true
  ↔ charge_in_flight (default initial_world (ui_run to_displaying initial_world)).
Proof.
  refine (proj1 (ui_single_charge_in_flight _ _)).
  exists to_displaying. vm_compute. reflexivity.
Defined.

(** ** Copying the code *)




Lemma step_copied (e : Event) (w w' : World) :
  step e w = Some w' → copied (ui w') = true →
  copied (ui w) = true ∨ e = ClickCopy.
Proof.
  intros Hstep. destruct e as [uid|uid| | |f v|id|fetch o|dt]; cbn [step] in Hstep;
    try (right; reflexivity).
  - injection Hstep as <-. open_world w. unfold_handlers. case_split; auto.
  - injection Hstep as <-. open_world w. unfold_handlers. case_split; auto.
  - injection Hstep as <-. open_world w. unfold_handlers. case_split; auto.
  - injection Hstep as <-. destruct f; open_world w; unfold_handlers; auto.
  - destruct (timers w !! id) as [tm|]; [|discriminate].
    destruct (due tm <=? now w); [|discriminate]. injection Hstep as <-.
    destruct tm as [[txId|j|] [] dl du]; open_world w; unfold_handlers; auto;
      intros; discriminate.
  - destruct (inflight w !! fetch) as [[|interval]|]; [| |discriminate];
      injection Hstep as <-.
    + submit_outcome_cases o w; auto.
    + poll_outcome_cases o w; auto.
  - destruct (bool_decide (may_advance dt w)); [|discriminate].
    injection Hstep as <-. auto.
Qed.

Lemma fire_reset_clears (w w' : World) (id : nat) (tm : Timer) :
  timers w !! id = Some tm → callback tm = ResetCopied →
  step (Fire id) w = Some w' → copied (ui w') = false.
Proof.
  intros Hid Hcb Hstep. cbn [step] in Hstep. rewrite Hid in Hstep.
  destruct (due tm <=? now w); [|discriminate]. injection Hstep as <-.
  destruct tm as [cb [] dl du]; cbn in Hcb; subst cb; clear; open_world w; reflexivity.
Qed.

Lemma reset_persists (e : Event) (w w' : World) (id : nat) (tm : Timer) :
  wf w → effect e w w' →
  timers w !! id = Some tm → callback tm = ResetCopied →
  (timers w' !! id = Some tm ∧ now w' ≤ due tm) ∨ e = Fire id.
Proof.
  intros [Ht Hi] Heff Hid Hcb. destruct (Ht id tm Hid) as (Hlt & Hdue & _).
  assert (Hnot : ∀ j, names_interval w j → j ≠ id).
  { intros j [_ Hpoll] ->. destruct (Hpoll tm Hid) as [tx Hp]. congruence. }
  destruct Heff as [Htm _ Hnow _ | Htm _ Hnow _ | fetch Htm _ Hnow _
                   | fetch r j _ Hj _ Htm _ Hnow _
                   | fetch txId Htm _ Hnow _ | Htm _ Hnow _
                   | id0 tm0 txId _ Hid0 Hcb0 _ Htm _ Hnow _
                   | id0 tm0 j _ Hid0 Hcb0 _ Htm _ Hnow _
                   | id0 tm0 He Hid0 Hcb0 Htm _ Hnow _
                   | dt [_ Hadv] Htm _ Hnow _];
    rewrite Htm, Hnow; clear Htm Hnow.
  1-3: left; split; [exact Hid|exact Hdue].
  - left. split; [|exact Hdue]. rewrite lookup_delete_ne; [exact Hid|].
    apply Hnot. exact (Hi fetch _ Hj).
  - left. split; [|exact Hdue]. now rewrite !lookup_insert_ne by lia.
  - left. split; [|exact Hdue]. now rewrite lookup_insert_ne by lia.
  - left. split; [|exact Hdue]. rewrite lookup_insert_ne; [exact Hid|]. congruence.
  - left. split; [|exact Hdue].
    destruct (Ht id0 tm0 Hid0) as (_ & _ & Hshape). rewrite Hcb0 in Hshape.
    destruct Hshape as (_ & _ & Hnamed).
    rewrite !lookup_delete_ne; [exact Hid| |]; [congruence|now apply Hnot].
  - destruct (decide (id0 = id)) as [->|Hne]; [right; exact He|].
    left. split; [|exact Hdue]. now rewrite lookup_delete_ne.
  - left. split; [exact Hid|]. exact (Hadv id tm Hid).
Qed.

(** X14: the copied mark cannot get stuck.  In every world the event loop
    can reach, while [copied] is true a timeout that resets it is pending in
    the timer table and is not overdue, and its firing switches the mark
    off. *)
Theorem copied_mark_has_pending_reset (w : World) :
  reachable w → copied (ui w) = true →
  ∃ id tm, timers w !! id = Some tm ∧ callback tm = ResetCopied ∧
           repeating tm = false ∧ now w ≤ due tm ∧
           ∀ w', step (Fire id) w = Some w' → copied (ui w') = false.
Proof.
  intros Hreach Hcopied. pose proof (reachable_wf w Hreach) as Hwf.
  assert (Hpending : ∃ id tm, timers w !! id = Some tm ∧ callback tm = ResetCopied ∧
                              now w ≤ due tm).
  { destruct Hreach as [evs Hrun]. clear Hwf. revert Hcopied.
    assert (H0 : copied (ui initial_world) = true →
                 ∃ id tm, timers initial_world !! id = Some tm ∧
                          callback tm = ResetCopied ∧ now initial_world ≤ due tm)
      by discriminate.
    pose proof wf_initial as Hwf0. revert H0 Hwf0 Hrun. generalize initial_world.
    induction evs as [|e evs IH]; intros w0 H0 Hwf0 Hrun; cbn in Hrun.
    - now injection Hrun as <-.
    - destruct (step e w0) as [w1|] eqn:Hstep; [|discriminate].
      apply (IH w1); [|eauto using wf_step|exact Hrun].
      intros Hc1. pose proof (step_effect e w0 w1 Hwf0 Hstep) as Heff.
      destruct (step_copied e w0 w1 Hstep Hc1) as [Hc0| ->].
      + destruct (H0 Hc0) as (id & tm & Hid & Hcb & Hdue).
        destruct (reset_persists e w0 w1 id tm Hwf0 Heff Hid Hcb) as [[Hid1 Hdue1]| ->].
        * eauto.
        * rewrite (fire_reset_clears w0 w1 id tm Hid Hcb Hstep) in Hc1. discriminate.
      + exists (next_timer w0), (copied_reset (now w0)).
        cbn [step] in Hstep. injection Hstep as <-. clear.
        open_world w0. unfold_handlers. cbn.
        rewrite lookup_insert_eq. repeat split. lia. }
  destruct Hpending as (id & tm & Hid & Hcb & Hdue). exists id, tm.
  destruct Hwf as [Ht _]. destruct (Ht id tm Hid) as (_ & _ & Hshape).
  rewrite Hcb in Hshape. destruct Hshape as [Hrep _].
  repeat split; auto. intros w'. now apply (fire_reset_clears w w' id tm).
Qed.

Lemma copied_mark_has_pending_reset_witness :
  ∃ id tm, timers (exec (copyToClipboard (J (JStr "00020126"))) displaying_world) !! id
           = Some tm ∧ callback tm = ResetCopied.
Proof.
  destruct (copied_mark_has_pending_reset
              (exec (copyToClipboard (J (JStr "00020126"))) displaying_world))
    as (id & tm & Hid & Hcb & _).
  - exists (to_displaying ++ [ClickCopy]). vm_compute. reflexivity.
  - reflexivity.
  - exists id, tm. split; [exact Hid|exact Hcb].
Defined.

(** ** Who is shown, and what the header offers *)

Lemma or_literal_nonempty (a : option string) (lit : string) :
  lit ≠ "" → or_literal a lit ≠ "".
Proof.
  intros Hlit. destruct a as [s|]; cbn; [|exact Hlit].
  destruct (is_empty s) eqn:Hs; [exact Hlit|now apply is_empty_false].
Qed.



(** X16: who is shown.  A non-empty [username] prop wins over anything in
    storage, and a non-empty [userId] prop likewise; empty strings count as
    absent; with a non-empty guest label the displayed name is never blank.
    A user whose name is the guest label itself is taken for a guest: neither
    the update button nor the logout button is rendered for them. *)
Theorem displayUsername_precedence (p : HeaderProps) (storage : gmap string string)
    (guest : string) :
  (∀ s, username p = Some s → s ≠ "" → displayUsername p storage guest = s) ∧
  (∀ s, userId p = Some s → s ≠ "" → currentUserId p storage = s) ∧
  (username p = None ∨ username p = Some "" →
   ∀ s, getItem storage "displayUsername" = Some s → s ≠ "" →
        displayUsername p storage guest = s) ∧
  (guest ≠ "" → displayUsername p storage guest ≠ "") ∧
  (guest ≠ "" → username p = Some guest →
   logout_button_rendered p storage guest = false ∧
   update_button_rendered p storage guest = false).
Proof.
  unfold displayUsername, currentUserId, update_button_rendered, logout_button_rendered,
    displayUsername.
  split; [|split; [|split; [|split]]].
  - intros s -> Hs. apply is_empty_false in Hs. cbn.
    repeat (rewrite Hs; cbn). reflexivity.
  - intros s -> Hs. apply is_empty_false in Hs. cbn.
    repeat (rewrite Hs; cbn). reflexivity.
  - intros Hno s -> Hs. apply is_empty_false in Hs.
    destruct Hno as [-> | ->]; cbn; repeat (rewrite Hs; cbn); reflexivity.
  - apply or_literal_nonempty.
  - intros Hg ->. apply is_empty_false in Hg. cbn.
    repeat (rewrite Hg; cbn). rewrite String.eqb_refl. split; reflexivity.
Qed.

(** ** Logging out *)

Lemma snoc_split {A} (l1 l2 l : list A) (a x : A) :
  l1 ++ a :: l2 = l ++ [x] →
  (l2 = [] ∧ l1 = l ∧ a = x) ∨ ∃ l2', l2 = l2' ++ [x] ∧ l1 ++ a :: l2' = l.
Proof.
  destruct l2 as [|b l2 _] using rev_ind; intros H.
  - left. apply app_inj_tail in H as [-> ->]. auto.
  - right. exists l2. change (a :: l2 ++ [b]) with ((a :: l2) ++ [b]) in H.
    rewrite app_assoc in H. apply app_inj_tail in H as [<- ->]. auto.
Qed.

Lemma cleaned_snoc (log : list Outside) (x : Outside) :
  x ≠ CallOnLogout → cleaned_before_logout log → cleaned_before_logout (log ++ [x]).
Proof.
  intros Hx Hlog l1 l2 Heq. symmetry in Heq.
  apply snoc_split in Heq as [(_ & _ & <-)|(l2' & _ & Heq)]; [congruence|].
  eapply Hlog. symmetry. exact Heq.
Qed.

Lemma cleaned_step (e : HeaderEvent) (log : list Outside) :
  cleaned_before_logout log → cleaned_before_logout (outside_step e log).
Proof.
  intros Hlog. destruct e as [|p [|]|p]; unfold outside_step.
  - now apply cleaned_snoc.
  - unfold handleLogout_resume. cbv iota. rewrite !app_assoc.
    destruct (onLogout p).
    + intros l1 l2 Heq. symmetry in Heq.
      apply snoc_split in Heq as [(_ & -> & _)|(l2' & _ & Heq)].
      * exists log. now rewrite <- app_assoc.
      * assert (Hc : cleaned_before_logout ((log ++ [ClearAuth]) ++ [DisconnectSocket]))
          by (repeat apply cleaned_snoc; [discriminate..|exact Hlog]).
        eapply Hc. symmetry. exact Heq.
    + repeat apply cleaned_snoc; [discriminate..|exact Hlog].
  - exact Hlog.
  - unfold handleLogoClick. destruct (onNavigate p); now apply cleaned_snoc.
Qed.

(** X17: the logout callback never runs with the session still in place.
    Over any sequence of logout clicks, dialog answers and logo clicks, every
    call of [onLogout] in what the header did to the outside comes directly
    after [clearAuth()] and [disconnectSocket()], in that order. *)
Theorem logout_callback_after_cleanup (evs : list HeaderEvent) (l1 l2 : list Outside) :
  outside_run evs = l1 ++ CallOnLogout :: l2 →
  ∃ l0, l1 = l0 ++ [ClearAuth; DisconnectSocket].
Proof.
  revert l1 l2. change (cleaned_before_logout (outside_run evs)).
  unfold outside_run. induction evs as [|e evs IH] using rev_ind.
  - intros l1 l2 H. destruct l1; discriminate H.
  - rewrite fold_left_app. cbn. now apply cleaned_step.
Qed.

Lemma logout_callback_after_cleanup_witness :
  ∃ l0, [ShowConfirm (Translated "header.logoutConfirm") "warning"
           (Translated "header.logoutTitle") (Translated "common.logout")
           (Translated "common.cancel"); ClearAuth; DisconnectSocket]
        = l0 ++ [ClearAuth; DisconnectSocket].
Proof.
  exact (logout_callback_after_cleanup [LogoutClick; LogoutAnswer sample_props true]
           [ShowConfirm (Translated "header.logoutConfirm") "warning"
              (Translated "header.logoutTitle") (Translated "common.logout")
              (Translated "common.cancel"); ClearAuth; DisconnectSocket]
           [] eq_refl).
Defined.

(** ** The validation notices behind a disabled button *)

Lemma not_validation_key (key : string) (k : severity) :
  key ≠ "wallet.fillPayerInfo" → key ≠ "wallet.enterIdentification" →
  ¬ validation_notice {| message := Translated key; kind := k |}.
Proof. intros H1 H2 [_ [H|H]]; cbn in H; congruence. Qed.

Lemma not_validation_or_else (v : jsval) (k : severity) :
  ¬ validation_notice
      {| message := or_else v (Translated "header.updateFailed"); kind := k |}.
Proof.
  unfold or_else. destruct (truthy v); [|now apply not_validation_key].
  intros [_ [H|H]]; discriminate H.
Qed.

Ltac no_validation :=
  first [ left; reflexivity
        | right; eexists; split; [reflexivity|];
          first [apply not_validation_or_else | apply not_validation_key; discriminate] ].

Lemma ui_step_notices (e : Event) (w w' : World) :
  ui_step e w = Some w' →
  notices w' = notices w ∨
  ∃ n, notices w' = notices w ++ [n] ∧ ¬ validation_notice n.
Proof.
  intros Hui. destruct (ui_step_inv e w w' Hui) as [Hoff Hstep]. clear Hui.
  destruct e as [uid|uid| | |f v|id|fetch o|dt]; cbn [step] in Hstep.
  - injection Hstep as <-. open_world w. unfold_handlers. case_split; no_validation.
  - injection Hstep as <-. cbn in Hoff. destruct (view (ui w)); try discriminate.
    apply negb_true_iff in Hoff. unfold submit_disabled in Hoff.
    repeat (apply orb_false_iff in Hoff as [Hoff ?]).
    open_world w. unfold_handlers.
    repeat match goal with H : is_empty _ = false |- _ => rewrite H; clear H end.
    cbn. case_split; no_validation.
  - injection Hstep as <-. open_world w. unfold_handlers. case_split; no_validation.
  - injection Hstep as <-. open_world w. unfold_handlers. no_validation.
  - injection Hstep as <-. destruct f; open_world w; unfold_handlers; no_validation.
  - destruct (timers w !! id) as [tm|]; [|discriminate].
    destruct (due tm <=? now w); [|discriminate]. injection Hstep as <-.
    destruct tm as [[txId|j|] [] dl du]; open_world w; unfold_handlers; no_validation.
  - destruct (inflight w !! fetch) as [[|interval]|]; [| |discriminate];
      injection Hstep as <-.
    + submit_outcome_cases o w; no_validation.
    + poll_outcome_cases o w; no_validation.
  - destruct (bool_decide (may_advance dt w)); [|discriminate].
    injection Hstep as <-. left. reflexivity.
Qed.

(** X18: behind the render, the validation block of [handleSubmitUpdate]
    (lines 99-108) never fires.  The submit button is disabled on exactly the
    inputs the block refuses, so in no world reached by clicking what the
    render offers has a validation notice ever been shown. *)
Theorem ui_never_shows_validation_notice (w : World) (n : Notification) :
  ui_reachable w → n ∈ notices w → ¬ validation_notice n.
Proof.
  intros [evs Hrun] Hin.
  assert (Hall : Forall (λ n, ¬ validation_notice n) (notices w)).
  { assert (H0 : Forall (λ n, ¬ validation_notice n) (notices initial_world))
      by constructor.
    revert H0 Hrun. generalize initial_world. clear Hin.
    induction evs as [|e evs IH]; intros w0 H0 Hrun; cbn in Hrun.
    - now injection Hrun as <-.
    - destruct (ui_step e w0) as [w1|] eqn:Hstep; [|discriminate].
      apply (IH w1); [|exact Hrun].
      destruct (ui_step_notices e w0 w1 Hstep) as [->|[n' [-> Hn']]]; [exact H0|].
      apply Forall_app. split; [exact H0|]. now constructor. }
  rewrite Forall_forall in Hall. auto.
Qed.

Lemma ui_never_shows_validation_notice_witness :
  {| message := Translated "header.updateQrCodeGenerated"; kind := success |}
    ∈ notices displaying_world ∧
  ¬ validation_notice
      {| message := Translated "header.updateQrCodeGenerated"; kind := success |}.
Proof.
  assert (Hin : {| message := Translated "header.updateQrCodeGenerated"; kind := success |}
                  ∈ notices displaying_world)
    by (apply list_elem_of_singleton; reflexivity).
  split; [exact Hin|].
  refine (ui_never_shows_validation_notice displaying_world _ _ Hin).
  exists to_displaying. vm_compute. reflexivity.
Defined.
